(** * Daylite contact export ([dlExEf.py]): a shallow embedding

    The script walks a CRM REST API (contact listing, contact detail,
    company, forms, notes) and writes one text file per contact.  This
    development embeds the class [DayliteAPI] and [main] as Rocq functions
    and states the properties of the exported documents.

    Modelling choices, all visible in the definitions below:
    - a decoded JSON body is a value of [json]; JSON numbers are integers
      (floating point values are outside the model);
    - a Python [str] is a [string] whose characters are code points below
      256;
    - a Python exception is the [Raise] branch of [result];
    - the remote API is a function from URLs to optional bodies ([None] is a
      [requests] failure);
    - the file system is a finite map from file names to contents, threaded
      through the writers;
    - the nondeterminism of [as_completed] is a [Schedule]: an arbitrary
      rearrangement of the submitted futures;
    - of the log, the exceptions that the orchestrator catches and reports
      are tracked; the informational lines and the error line of
      [_make_request] are a side channel and are not. *)

From Stdlib Require Import ZArith Ascii String DecimalString.
From stdpp Require Import base option list strings gmap.

Local Open Scope string_scope.
Local Open Scope Z_scope.
Local Open Scope list_scope.

(** ** Python values *)

Module Py.

(** What [response.json()] can return. A [dict] keeps insertion order, so it
    is an association list; a decoded object has pairwise distinct keys and
    [dict_lookup] reads the first binding. *)
#[warnings="-register-all"]
Inductive json : Type :=
| JNull
| JBool (b : bool)
| JInt (z : Z)
| JStr (s : string)
| JList (l : list json)
| JDict (d : list (string * json)).

Inductive exn : Type :=
| KeyError | IndexError | TypeError | AttributeError | ValueError.

Inductive result (A : Type) : Type :=
| Ok (a : A)
| Raise (e : exn).
Global Arguments Ok {A} a.
Global Arguments Raise {A} e.

Global Instance result_ret : MRet result := fun A a => Ok a.
Global Instance result_bind : MBind result := fun A B f m =>
  match m with Ok a => f a | Raise e => Raise e end.

Global Instance exn_eq_dec : EqDecision exn.
Proof. solve_decision. Defined.

(** [try: body except (e1, e2, ...): handler] *)
Definition try_except {A} (body : result A) (caught : list exn)
    (handler : result A) : result A :=
  match body with
  | Ok a => Ok a
  | Raise e => if bool_decide (e ∈ caught) then handler else Raise e
  end.

(** Monadic left fold: a [for] loop whose body may raise. *)
Fixpoint foldM {A B} (f : B → A → result B) (acc : B) (l : list A) : result B :=
  match l with
  | [] => Ok acc
  | x :: l' => acc' ← f acc x; foldM f acc' l'
  end.

(** *** Strings *)

Definition chr (n : N) : ascii := ascii_of_N n.
Definition slash : ascii := chr 47.
Definition backslash : ascii := chr 92.
Definition newline : ascii := chr 10.
Definition quote1 : ascii := chr 39.
Definition quote2 : ascii := chr 34.
Definition nl : string := String newline "".

(** [needle in hay] *)
Fixpoint str_contains (needle hay : string) : bool :=
  String.prefix needle hay ||
  match hay with
  | EmptyString => false
  | String _ hay' => str_contains needle hay'
  end.

(** [s[:n]] *)
Fixpoint str_take (n : nat) (s : string) : string :=
  match n, s with
  | S n', String c s' => String c (str_take n' s')
  | _, _ => ""
  end.

(** [str.isspace] on one code point below 256. *)
Definition isspace (c : ascii) : bool :=
  let n := N_of_ascii c in
  ((9 <=? n) && (n <=? 13) || (28 <=? n) && (n <=? 32)
   || (n =? 133) || (n =? 160))%N.

Fixpoint lstrip (s : string) : string :=
  match s with
  | String c s' => if isspace c then lstrip s' else s
  | EmptyString => ""
  end.

Fixpoint rstrip (s : string) : string :=
  match s with
  | String c s' =>
      match rstrip s' with
      | EmptyString => if isspace c then "" else String c ""
      | r => String c r
      end
  | EmptyString => ""
  end.

(** [s.strip()] *)
Definition strip (s : string) : string := rstrip (lstrip s).

(** [s.translate({ord(c): '' for c in drop})] *)
Fixpoint str_remove (drop : list ascii) (s : string) : string :=
  match s with
  | String c s' =>
      if bool_decide (c ∈ drop) then str_remove drop s'
      else String c (str_remove drop s')
  | EmptyString => ""
  end.

(** [s.split(sep)] for a one-character separator: never the empty list. *)
Fixpoint split_on (sep : ascii) (s : string) : list string :=
  match s with
  | EmptyString => [""]
  | String c s' =>
      if Ascii.eqb c sep then "" :: split_on sep s'
      else match split_on sep s' with
           | h :: t => String c h :: t
           | [] => [String c ""]
           end
  end.

(** [sep.join(l)] on strings. *)
Definition join (sep : string) (l : list string) : string := String.concat sep l.

Definition hex_digit (n : N) : ascii :=
  if (n <? 10)%N then chr (48 + n) else chr (87 + n).

(** One character inside [repr] of a [str] quoted with [q]. *)
Definition repr_char (q c : ascii) : string :=
  let n := N_of_ascii c in
  if Ascii.eqb c q || Ascii.eqb c backslash then String backslash (String c "")
  else if (n =? 9)%N then String backslash "t"
  else if (n =? 10)%N then String backslash "n"
  else if (n =? 13)%N then String backslash "r"
  else if ((n <? 32) || (n =? 127) || (128 <=? n) && (n <=? 160) || (n =? 173))%N
       then String backslash (String "x" (String (hex_digit (n / 16)) (String (hex_digit (n mod 16)) "")))
  else String c "".

Fixpoint repr_chars (q : ascii) (s : string) : string :=
  match s with
  | String c s' => repr_char q c +:+ repr_chars q s'
  | EmptyString => ""
  end.

(** [repr(s)]: single quotes unless [s] has a single quote and no double one. *)
Definition repr_str (s : string) : string :=
  let q := if str_contains (String quote1 "") s && negb (str_contains (String quote2 "") s)
           then quote2 else quote1 in
  String q (repr_chars q s +:+ String q "").

Definition str_of_Z (z : Z) : string := NilZero.string_of_int (Z.to_int z).

Fixpoint py_repr (v : json) : string :=
  match v with
  | JNull => "None"
  | JBool true => "True"
  | JBool false => "False"
  | JInt z => str_of_Z z
  | JStr s => repr_str s
  | JList l => "[" +:+ join ", " (map py_repr l) +:+ "]"
  | JDict d =>
      "{" +:+ join ", " (map (fun kv => repr_str (fst kv) +:+ ": " +:+ py_repr (snd kv)) d) +:+ "}"
  end.

(** [str(v)], also what an f-string substitutes for [{v}]. *)
Definition py_str (v : json) : string :=
  match v with
  | JStr s => s
  | _ => py_repr v
  end.

(** Truth value: [if v], [not v], [filter(None, ...)]. *)
Definition truthy (v : json) : bool :=
  match v with
  | JNull => false
  | JBool b => b
  | JInt z => negb (z =? 0)
  | JStr s => negb (String.eqb s "")
  | JList l => negb (bool_decide (l = []))
  | JDict d => negb (bool_decide (d = []))
  end.

(** *** Operations that raise on the wrong type *)

Fixpoint dict_lookup (k : string) (d : list (string * json)) : option json :=
  match d with
  | [] => None
  | (k', v) :: d' => if String.eqb k' k then Some v else dict_lookup k d'
  end.

(** [obj.get(key, default)]: only a [dict] has [get]. *)
Definition py_get (obj : json) (key : string) (default : json) : result json :=
  match obj with
  | JDict d => Ok (from_option id default (dict_lookup key d))
  | _ => Raise AttributeError
  end.

(** [obj[key]] for a [str] key. *)
Definition py_getitem (obj : json) (key : string) : result json :=
  match obj with
  | JDict d => match dict_lookup key d with Some v => Ok v | None => Raise KeyError end
  | _ => Raise TypeError
  end.

Fixpoint str_chars (s : string) : list json :=
  match s with
  | String c s' => JStr (String c "") :: str_chars s'
  | EmptyString => []
  end.

(** [obj[i]] for an index [i >= 0]; the keys of a decoded object are
    strings, so an integer is never among them. *)
Definition py_index (obj : json) (i : nat) : result json :=
  match obj with
  | JList l => match l !! i with Some v => Ok v | None => Raise IndexError end
  | JStr s => match str_chars s !! i with Some v => Ok v | None => Raise IndexError end
  | JDict _ => Raise KeyError
  | _ => Raise TypeError
  end.

(** What [for x in obj] and a comprehension range over. *)
Definition py_iter (obj : json) : result (list json) :=
  match obj with
  | JList l => Ok l
  | JDict d => Ok (map (fun kv => JStr (fst kv)) d)
  | JStr s => Ok (str_chars s)
  | _ => Raise TypeError
  end.

(** [obj.items()] *)
Definition py_items (obj : json) : result (list (string * json)) :=
  match obj with
  | JDict d => Ok d
  | _ => Raise AttributeError
  end.

Fixpoint mapM {A B} (f : A → result B) (l : list A) : result (list B) :=
  match l with
  | [] => Ok []
  | x :: l' => y ← f x; ys ← mapM f l'; Ok (y :: ys)
  end.

Definition as_str (v : json) : result string :=
  match v with
  | JStr s => Ok s
  | _ => Raise TypeError
  end.

(** [sep.join(items)]: every item has to be a [str]. *)
Definition py_join (sep : string) (items : list json) : result string :=
  parts ← mapM as_str items; Ok (join sep parts).

(** [obj.translate({ord(c): '' for c in drop})]: only a [str] has it. *)
Definition py_translate (obj : json) (drop : list ascii) : result string :=
  match obj with
  | JStr s => Ok (str_remove drop s)
  | _ => Raise AttributeError
  end.

(** [obj.split('/')[-1]] *)
Definition py_last_segment (obj : json) : result string :=
  match obj with
  | JStr s => Ok (List.last (split_on slash s) "")
  | _ => Raise AttributeError
  end.

(** *** [re.search(r"/v1/contacts/(\d+)", s)] *)

(** What [\d] matches. On a [str] pattern [\d] stands for every Unicode
    decimal digit; among the code points below 256, which are all that the
    strings of this development hold, these are the digits 0 to 9. Ids
    written with digits of other scripts are outside the model. *)
Definition is_digit (c : ascii) : bool :=
  let n := N_of_ascii c in ((48 <=? n) && (n <=? 57))%N.

Fixpoint take_digits (s : string) : string :=
  match s with
  | String c s' => if is_digit c then String c (take_digits s') else ""
  | EmptyString => ""
  end.

Fixpoint str_drop (n : nat) (s : string) : string :=
  match n, s with
  | S n', String _ s' => str_drop n' s'
  | _, _ => s
  end.

Definition contacts_prefix : string := "/v1/contacts/".

(** The match anchored at the start of [s]: group 1 when it succeeds. *)
Definition match_contact_here (s : string) : option string :=
  if String.prefix contacts_prefix s then
    match take_digits (str_drop (String.length contacts_prefix) s) with
    | EmptyString => None
    | ds => Some ds
    end
  else None.

(** Leftmost match, greedy digits. *)
Fixpoint search_contact (s : string) : option string :=
  match match_contact_here s with
  | Some ds => Some ds
  | None =>
      match s with
      | String _ s' => search_contact s'
      | EmptyString => None
      end
  end.

Definition re_search_contact (burl : json) : result (option string) :=
  match burl with
  | JStr s => Ok (search_contact s)
  | _ => Raise TypeError
  end.

(** *** Thread pools *)

(** [ThreadPoolExecutor(max_workers=n)] refuses [n <= 0]. *)
Definition ThreadPoolExecutor (n : Z) : result unit :=
  if n <=? 0 then Raise ValueError else Ok tt.

(** [as_completed(futures)] yields every submitted future once, in the order
    in which they finish. *)
Record Schedule : Type := {
  as_completed : ∀ A : Type, list A → list A;
  as_completed_perm : ∀ (A : Type) (l : list A), as_completed A l ≡ₚ l
}.
Global Arguments as_completed _ {A} _.

Definition in_submission_order : Schedule :=
  {| as_completed := fun A l => l; as_completed_perm := fun A l => reflexivity l |}.

Definition last_submitted_first : Schedule :=
  {| as_completed := fun A l => reverse l;
     as_completed_perm := fun A l => reverse_Permutation l |}.

End Py.

(** ** The class [DayliteAPI] *)

Module DayliteAPI.
Import Py.

(** [self]: the session (the remote API seen through [session.get] followed
    by [raise_for_status] and [json]; [None] stands for any
    [RequestException]) and the worker bound. *)
Record t : Type := {
  session_get : string → option json;
  max_workers : Z
}.

Definition base_url : string := "https://api.marketcircle.net".

Definition extra_field_names : list (string * string) :=
  [ ("com.marketcircle.daylite/extra1", "Model #'s");
    ("com.marketcircle.daylite/extra2", "");
    ("com.marketcircle.daylite/extra3", "DCA/Distrib");
    ("com.marketcircle.daylite/extra4", "Client Level");
    ("com.marketcircle.daylite/extra5", "Meeting Freq");
    ("com.marketcircle.daylite/extra6", "Fee Rate");
    ("com.marketcircle.daylite/extra7", "Spouse/Kids");
    ("com.marketcircle.daylite/extra8", "Referred By");
    ("com.marketcircle.daylite/extra9", "Expected Rev");
    ("com.marketcircle.daylite/extra10", "His FGA Risk");
    ("com.marketcircle.daylite/extra11", "Her FGA Risk") ].

(** [extra_field_names.get(key)] *)
Fixpoint names_get (key : string) (table : list (string * string)) : option string :=
  match table with
  | [] => None
  | (k, v) :: table' => if String.eqb k key then Some v else names_get key table'
  end.

(** The completion orders of the two inner pools of one contact. *)
Record Timing : Type := {
  forms_done : Schedule;
  notes_done : Schedule
}.

Definition _make_request (self : t) (url : string) : json :=
  match session_get self url with
  | Some body => body
  | None => JNull
  end.

Definition extract_ids (self : t) : result (list string) :=
  let response := _make_request self (base_url +:+ "/v1/contacts") in
  if negb (truthy response) then Ok []
  else
    contacts ← py_iter response;
    foldM (fun ids contact =>
             burl ← py_get contact "self" (JStr "");
             m ← re_search_contact burl;
             Ok (match m with Some g => ids ++ [g] | None => ids end))
          [] contacts.

(** The loop body of [_process_single_form]: one entry of [values]. *)
Definition form_value_line (result : list string) (value : json) : Py.result (list string) :=
  name ← py_get value "name" JNull;
  value_str ← py_get value "value" JNull;
  Ok (match value_str with
      | JNull => result
      | _ => if negb (str_contains "+" (py_str value_str))
             then result ++ [" - " +:+ py_str name +:+ ": " +:+ py_str value_str]
             else result
      end).

(** Returns a [str], or [None] when the function falls off its end. *)
Definition _process_single_form (self : t) (form_id : string) : result (option string) :=
  let data := _make_request self (base_url +:+ "/v1/forms/" +:+ form_id) in
  if negb (truthy data) then Ok (Some "")
  else
    form_name ← py_get data "name" (JStr "Unknown Form Name");
    values ← py_get data "values" (JList []);
    if negb (str_contains "Geo Coordinates" (py_str form_name)) then
      let result := [nl +:+ "Form Name: " +:+ py_str form_name; nl] in
      vs ← py_iter values;
      result ← foldM form_value_line result vs;
      Ok (Some (join nl result))
    else Ok None.

Definition _process_single_note (self : t) (note_id : string) : result (option string) :=
  let data := _make_request self (base_url +:+ "/v1/notes/" +:+ note_id) in
  if negb (truthy data) then Ok (Some "")
  else
    title ← py_get data "title" (JStr "No title found");
    content ← py_get data "details" (JStr "No content found");
    Ok (Some (nl +:+ py_str title +:+ nl +:+ py_str content)).

(** [if future.result(): data.append(future.result())]; [result()] re-raises
    what the task raised. *)
Definition collect (data : list string) (future : result (option string)) : result (list string) :=
  r ← future;
  Ok (match r with
      | Some s => if negb (String.eqb s "") then data ++ [s] else data
      | None => data
      end).

Definition _process_forms (self : t) (done : Schedule) (form_ids : list string) : result string :=
  _ ← ThreadPoolExecutor (Z.min (Z.of_nat (length form_ids)) (max_workers self));
  let future_to_form := map (_process_single_form self) form_ids in
  forms_data ← foldM collect [] (as_completed done future_to_form);
  Ok (join nl forms_data).

Definition _process_notes (self : t) (done : Schedule) (note_ids : list string) : result string :=
  _ ← ThreadPoolExecutor (Z.min (Z.of_nat (length note_ids)) (max_workers self));
  let future_to_note := map (_process_single_note self) note_ids in
  notes_data ← foldM collect [] (as_completed done future_to_note);
  Ok (join nl notes_data).

(** [_process_contact], lines 86-88: the display name and the file name. *)
Definition contact_name (contact_id : string) (data : json) : result string :=
  name ← py_get data "full_name" (JStr ("MissingName" +:+ contact_id));
  py_translate name [slash; backslash].

Definition contact_filename (name : string) : string :=
  strip (str_take 20 name) +:+ ".txt".

(** Lines 97-102, [# Process address]. *)
Definition process_address (data : json) (contact_info : list json) : result (list json) :=
  try_except
    (addresses ← py_getitem data "addresses";
     address ← py_index addresses 0;
     city ← py_getitem address "city";
     state ← py_getitem address "state";
     Ok (contact_info ++ [JStr (py_str city +:+ ", " +:+ py_str state)]))
    [KeyError; IndexError]
    (Ok (contact_info ++ [JStr "No location found"])).

(** Lines 104-111, [# Process company information]. *)
Definition process_company (self : t) (data : json) (contact_info : list json)
    : result (list json) :=
  try_except
    (companies ← py_getitem data "companies";
     company ← py_index companies 0;
     link ← py_getitem company "company";
     let company_data := _make_request self (base_url +:+ py_str link) in
     company_name ← (if truthy company_data then py_getitem company_data "name"
                     else Ok (JStr "Unknown Company"));
     role ← py_getitem company "role";
     Ok (contact_info ++ [JStr ("Job: " +:+ py_str role +:+ " at " +:+ py_str company_name)]))
    [KeyError; IndexError]
    (Ok (contact_info ++ [JStr "No job information found"])).

(** Lines 120-123: [extra_field_names.get(key) or field.get('display_name', key)]. *)
Definition display_name_of (key : string) (field : json) : result json :=
  match names_get key extra_field_names with
  | Some custom => if truthy (JStr custom) then Ok (JStr custom)
                   else py_get field "display_name" (JStr key)
  | None => py_get field "display_name" (JStr key)
  end.

(** Lines 117-124: the body of the loop over [extra_fields.items()]. *)
Definition extra_field_line (contact_info : list json) (item : string * json)
    : result (list json) :=
  let '(key, field) := item in
  value ← py_get field "value" JNull;
  if truthy value then
    display_name ← display_name_of key field;
    value ← py_getitem field "value";
    Ok (contact_info ++ [JStr (" - " +:+ py_str display_name +:+ ": " +:+ py_str value)])
  else Ok contact_info.

(** Lines 113-124, [# Process extra fields]. *)
Definition process_extra_fields (data : json) (contact_info : list json)
    : result (list json) :=
  extra_fields ← py_get data "extra_fields" (JDict []);
  if truthy extra_fields then
    items ← py_items extra_fields;
    foldM extra_field_line (contact_info ++ [JStr (nl +:+ "Extra Fields:")]) items
  else Ok contact_info.

(** Lines 127-133, [# Process forms]. *)
Definition process_forms_section (self : t) (done : Schedule) (data : json)
    (contact_info : list json) : result (list json) :=
  try_except
    (forms ← py_getitem data "forms";
     forms ← py_iter forms;
     form_ids ← mapM (fun form => link ← py_getitem form "form"; py_last_segment link) forms;
     forms_data ← _process_forms self done form_ids;
     Ok (contact_info ++ [JStr forms_data]))
    [KeyError]
    (Ok (contact_info ++ [JStr "No forms found"])).

(** Lines 135-141, [# Process notes]. *)
Definition process_notes_section (self : t) (done : Schedule) (data : json)
    (contact_info : list json) : result (list json) :=
  try_except
    (notes ← py_getitem data "notes";
     notes ← py_iter notes;
     note_ids ← mapM (fun note => link ← py_getitem note "note"; py_last_segment link) notes;
     notes_data ← _process_notes self done note_ids;
     Ok (contact_info ++ [JStr notes_data]))
    [KeyError]
    (Ok (contact_info ++ [JStr "No notes found"])).

(** Lines 86-141: the file name and [contact_info] as it stands when the
    file is about to be written. *)
Definition build_contact_info (self : t) (tm : Timing) (contact_id : string) (data : json)
    : result (string * list json) :=
  name ← contact_name contact_id data;
  let filename := contact_filename name in
  let contact_info := [] in
  let contact_info := contact_info ++ [JStr name] in
  details ← py_get data "details" (JStr "");
  let contact_info := contact_info ++ [details] in
  keywords ← py_get data "keywords" (JStr "");
  keywords ← py_iter keywords;
  keywords ← py_join " " keywords;
  let contact_info := contact_info ++ [JStr ("Keywords: " +:+ keywords)] in
  birthday ← py_get data "birthday" (JStr "");
  let contact_info := contact_info ++ [JStr ("Birthday: " +:+ py_str birthday)] in
  anniversary ← py_get data "anniversary" (JStr "");
  let contact_info := contact_info ++ [JStr ("Anniversary: " +:+ py_str anniversary)] in
  contact_info ← process_address data contact_info;
  contact_info ← process_company self data contact_info;
  contact_info ← process_extra_fields data contact_info;
  contact_info ← process_forms_section self (forms_done tm) data contact_info;
  contact_info ← process_notes_section self (notes_done tm) data contact_info;
  Ok (filename, contact_info).

(** The files in the working directory: name to content. Failures of the
    file system itself (a full disk, a name that the operating system
    refuses) are outside the model. *)
Abbreviation files := (gmap string string).

(** [_process_contact] as a transformer of the working directory. The file
    is opened for writing, hence created or emptied, before the text is
    joined; the whole write happens under [self._lock]. *)
Definition _process_contact (self : t) (tm : Timing) (contact_id : string) (fs : files)
    : files * result unit :=
  let data := _make_request self (base_url +:+ "/v1/contacts/" +:+ contact_id) in
  if negb (truthy data) then (fs, Ok tt)
  else
    match build_contact_info self tm contact_id data with
    | Raise e => (fs, Raise e)
    | Ok (filename, contact_info) =>
        match py_join nl (List.filter truthy contact_info) with
        | Raise e => (<[filename := ""]> fs, Raise e)
        | Ok text => (<[filename := text]> fs, Ok tt)
        end
    end.

(** What the run of the outer pool depends on besides the remote API: the
    timing of every contact's inner pools, the order in which the tasks take
    the lock, and the order in which they finish. *)
Record Plan : Type := {
  timing_of : string → Timing;
  lock_order : Schedule;
  contacts_done : Schedule
}.

(** The state the orchestrator acts on: the working directory and the
    exceptions its [except] branch has logged, oldest first. *)
Record state : Type := {
  dir : files;
  logged : list exn
}.

(** The tasks of the pool, run to completion in [lock_order]: each one
    touches the directory only inside the lock, so its effect is atomic. *)
Fixpoint run_tasks (tasks : list (files → files * result unit)) (fs : files)
    : files * list (result unit) :=
  match tasks with
  | [] => (fs, [])
  | task :: tasks' =>
      let '(fs1, r) := task fs in
      let '(fs2, rs) := run_tasks tasks' fs1 in
      (fs2, r :: rs)
  end.

(** [try: future.result() except Exception as e: logging.error(...)] *)
Definition log_failure (log : list exn) (future : result unit) : list exn :=
  match future with
  | Ok _ => log
  | Raise e => log ++ [e]
  end.

Definition process_all_contacts (self : t) (plan : Plan) (st : state) : state * result unit :=
  match extract_ids self with
  | Raise e => (st, Raise e)
  | Ok ids =>
      match ThreadPoolExecutor (max_workers self) with
      | Raise e => (st, Raise e)
      | Ok _ =>
          let tasks := map (fun id => _process_contact self (timing_of plan id) id) ids in
          let '(fs, futures) := run_tasks (as_completed (lock_order plan) tasks) (dir st) in
          let log := fold_left log_failure (as_completed (contacts_done plan) futures) (logged st) in
          ({| dir := fs; logged := log |}, Ok tt)
      end
  end.

End DayliteAPI.

(** ** The script *)

(** [main] builds the client with ten workers and runs it; the interpreter
    turns a normal return into exit status 0 and an uncaught exception into
    exit status 1. *)
Definition main (remote : string → option Py.json) (plan : DayliteAPI.Plan)
    (st : DayliteAPI.state) : DayliteAPI.state * Z :=
  let api := {| DayliteAPI.session_get := remote; DayliteAPI.max_workers := 10 |} in
  match DayliteAPI.process_all_contacts api plan st with
  | (st', Py.Ok _) => (st', 0)
  | (st', Py.Raise _) => (st', 1)
  end.

(** ** Views of the code used to reason about it *)

(** The results that [collect] keeps: the non-empty strings. *)
Definition collected (results : list (option string)) : list string :=
  omap (fun r => match r with
                 | Some s => if negb (String.eqb s "") then Some s else None
                 | None => None
                 end) results.

(** The shape that [_process_forms] and [_process_notes] share. *)
Definition aggregate (self : DayliteAPI.t) (done : Py.Schedule)
    (process_one : string → Py.result (option string)) (ids : list string)
    : Py.result string :=
  _ ← Py.ThreadPoolExecutor (Z.min (Z.of_nat (length ids)) (DayliteAPI.max_workers self));
  data ← Py.foldM DayliteAPI.collect [] (Py.as_completed done (map process_one ids));
  Py.Ok (Py.join Py.nl data).

(** The shape that the forms and the notes block of [_process_contact]
    share: [key] is the collection and the field of the link. *)
Definition process_section (key field fallback : string)
    (process_many : list string → Py.result string)
    (data : Py.json) (contact_info : list Py.json) : Py.result (list Py.json) :=
  Py.try_except
    (items ← Py.py_getitem data key;
     items ← Py.py_iter items;
     ids ← Py.mapM (fun item => link ← Py.py_getitem item field; Py.py_last_segment link) items;
     text ← process_many ids;
     Py.Ok (contact_info ++ [Py.JStr text]))
    [Py.KeyError]
    (Py.Ok (contact_info ++ [Py.JStr fallback])).

(** The entries of [contact_info], named: the contact record of the
    specification's data model. *)
Record ContactRecord : Type := {
  rec_name : string;
  rec_details : Py.json;
  rec_keywords : string;
  rec_birthday : string;
  rec_anniversary : string;
  rec_address : string;
  rec_job : string;
  rec_extra_fields : list string;
  rec_forms : string;
  rec_notes : string
}.

(** The record laid out in the order of the [append] calls. *)
Definition sections_of (r : ContactRecord) : list Py.json :=
  [ Py.JStr (rec_name r);
    rec_details r;
    Py.JStr ("Keywords: " +:+ rec_keywords r);
    Py.JStr ("Birthday: " +:+ rec_birthday r);
    Py.JStr ("Anniversary: " +:+ rec_anniversary r);
    Py.JStr (rec_address r);
    Py.JStr (rec_job r) ]
  ++ map Py.JStr (rec_extra_fields r)
  ++ [ Py.JStr (rec_forms r); Py.JStr (rec_notes r) ].

Definition with_texts (r : ContactRecord) (forms notes : string) : ContactRecord :=
  {| rec_name := rec_name r; rec_details := rec_details r;
     rec_keywords := rec_keywords r; rec_birthday := rec_birthday r;
     rec_anniversary := rec_anniversary r; rec_address := rec_address r;
     rec_job := rec_job r; rec_extra_fields := rec_extra_fields r;
     rec_forms := forms; rec_notes := notes |}.

(** Where the fields that do not depend on timing come from. *)
Definition read_from (self : DayliteAPI.t) (contact_id : string) (data : Py.json)
    (r : ContactRecord) : Prop :=
  DayliteAPI.contact_name contact_id data = Py.Ok (rec_name r)
  ∧ Py.py_get data "details" (Py.JStr "") = Py.Ok (rec_details r)
  ∧ (∃ k, Py.py_get data "keywords" (Py.JStr "") = Py.Ok k
          ∧ (Py.py_iter k ≫= Py.py_join " ") = Py.Ok (rec_keywords r))
  ∧ (∃ b, Py.py_get data "birthday" (Py.JStr "") = Py.Ok b ∧ rec_birthday r = Py.py_str b)
  ∧ (∃ a, Py.py_get data "anniversary" (Py.JStr "") = Py.Ok a
          ∧ rec_anniversary r = Py.py_str a)
  ∧ (∀ info, DayliteAPI.process_address data info
             = Py.Ok (info ++ [Py.JStr (rec_address r)]))
  ∧ (∀ info, DayliteAPI.process_company self data info
             = Py.Ok (info ++ [Py.JStr (rec_job r)]))
  ∧ (∀ info, DayliteAPI.process_extra_fields data info
             = Py.Ok (info ++ map Py.JStr (rec_extra_fields r))).

(** An entry of [contact_info] can be joined when it is falsy (then it is
    filtered out) or a [str]. *)
Definition joinable (v : Py.json) : Prop := Py.truthy v = true → ∃ s, v = Py.JStr s.

(** Where the two texts that depend on timing come from: the forms block and
    the notes block of [_process_contact], run with the completion orders of
    [tm], append them. *)
Definition aggregated (self : DayliteAPI.t) (tm : DayliteAPI.Timing) (data : Py.json)
    (forms notes : string) : Prop :=
  (∀ info, DayliteAPI.process_forms_section self (DayliteAPI.forms_done tm) data info
           = Py.Ok (info ++ [Py.JStr forms]))
  ∧ (∀ info, DayliteAPI.process_notes_section self (DayliteAPI.notes_done tm) data info
             = Py.Ok (info ++ [Py.JStr notes])).

(** The entry of the override table for [key], empty when there is none. *)
Definition override (key : string) : string :=
  from_option id "" (DayliteAPI.names_get key DayliteAPI.extra_field_names).

(** The display name as the specification words it: the first non-empty
    candidate among the override, the declared display name and the key. *)
Definition spec_display_name (key : string) (field : list (string * Py.json)) : Py.json :=
  let candidates :=
    [Py.JStr (override key)]
    ++ option_list (Py.dict_lookup "display_name" field)
    ++ [Py.JStr key] in
  match List.filter Py.truthy candidates with
  | c :: _ => c
  | [] => Py.JStr ""
  end.

(** The header entries of a form block. *)
Definition form_header (form_name : Py.json) : list string :=
  [Py.nl +:+ "Form Name: " +:+ Py.py_str form_name; Py.nl].

(** The exception a finished task holds, if any. *)
Definition failure_of (future : Py.result unit) : option Py.exn :=
  match future with
  | Py.Ok _ => None
  | Py.Raise e => Some e
  end.

(** The exceptions that the contacts of a batch end with, in submission
    order; the outcome of a task does not depend on the directory it starts
    from (lemma [process_contact_atomic]). *)
Definition failures (self : DayliteAPI.t) (plan : DayliteAPI.Plan) (ids : list string)
    : list Py.exn :=
  omap (fun id => failure_of
                    (snd (DayliteAPI._process_contact self (DayliteAPI.timing_of plan id) id ∅)))
       ids.

(** A task that only adds its own files to the directory, and whose outcome
    does not depend on the directory. *)
Definition atomic (task : gmap string string → gmap string string * Py.result unit) : Prop :=
  ∀ fs, task fs = (fst (task ∅) ∪ fs, snd (task ∅)).

(** Two clients whose requests agree wherever one of them gets a truthy
    body, and get falsy bodies together. *)
Definition same_answers (a b : DayliteAPI.t) : Prop :=
  DayliteAPI.max_workers a = DayliteAPI.max_workers b
  ∧ ∀ url, Py.truthy (DayliteAPI._make_request a url)
           = Py.truthy (DayliteAPI._make_request b url)
         ∧ (Py.truthy (DayliteAPI._make_request a url) = true →
            DayliteAPI._make_request a url = DayliteAPI._make_request b url).

(** ** Remote APIs to state and test the properties with *)

(** A remote that serves the listed bodies and fails everywhere else. *)
Definition serving (pages : list (string * Py.json)) : string → option Py.json :=
  fun url => Py.dict_lookup url pages.

(** [remote] with the outcome of one URL replaced. *)
Definition respond (remote : string → option Py.json) (url : string)
    (outcome : option Py.json) : string → option Py.json :=
  fun u => if String.eqb u url then outcome else remote u.

Definition listing_url : string := DayliteAPI.base_url +:+ "/v1/contacts".
Definition contact_url (contact_id : string) : string :=
  DayliteAPI.base_url +:+ "/v1/contacts/" +:+ contact_id.
Definition form_url (form_id : string) : string :=
  DayliteAPI.base_url +:+ "/v1/forms/" +:+ form_id.

Definition steady : DayliteAPI.Timing :=
  {| DayliteAPI.forms_done := Py.in_submission_order;
     DayliteAPI.notes_done := Py.in_submission_order |}.

Definition hasty : DayliteAPI.Timing :=
  {| DayliteAPI.forms_done := Py.last_submitted_first;
     DayliteAPI.notes_done := Py.last_submitted_first |}.

Definition steady_plan : DayliteAPI.Plan :=
  {| DayliteAPI.timing_of := fun _ => steady;
     DayliteAPI.lock_order := Py.in_submission_order;
     DayliteAPI.contacts_done := Py.in_submission_order |}.

Definition fresh : DayliteAPI.state :=
  {| DayliteAPI.dir := ∅; DayliteAPI.logged := [] |}.

(** A small CRM. Contact 7 has a long name, three forms (one with a value
    holding a plus sign, one with geo coordinates, one plain) and two notes;
    contact 8 has no detail page; contact 9 lists no form at all; contact 10
    declares an empty display name for a field of its own. *)
Definition sample_pages : list (string * Py.json) :=
  [ (listing_url,
     Py.JList [ Py.JDict [("self", Py.JStr "/v1/contacts/7")];
                Py.JDict [("self", Py.JStr "/v1/contacts/8")];
                Py.JDict [("self", Py.JStr "/v1/contacts/9")];
                Py.JDict [("self", Py.JStr "/v1/contacts/10")];
                Py.JDict [("self", Py.JStr "/v1/companies/3")] ]);
    (contact_url "7",
     Py.JDict [ ("full_name", Py.JStr "Alexander Maximilian Schwarzenegger");
                ("companies", Py.JList [ Py.JDict [ ("company", Py.JStr "/v1/companies/3");
                                                   ("role", Py.JStr "Owner") ] ]);
                ("forms", Py.JList [ Py.JDict [("form", Py.JStr "/v1/forms/1")];
                                     Py.JDict [("form", Py.JStr "/v1/forms/2")];
                                     Py.JDict [("form", Py.JStr "/v1/forms/3")] ]);
                ("notes", Py.JList [ Py.JDict [("note", Py.JStr "/v1/notes/1")];
                                     Py.JDict [("note", Py.JStr "/v1/notes/2")] ]) ]);
    (contact_url "9",
     Py.JDict [ ("full_name", Py.JStr "Bo"); ("forms", Py.JList []) ]);
    (contact_url "10",
     Py.JDict [ ("full_name", Py.JStr "Ann");
                ("extra_fields",
                 Py.JDict [ ("custom1", Py.JDict [ ("value", Py.JStr "x");
                                                   ("display_name", Py.JStr "") ]) ]) ]);
    (DayliteAPI.base_url +:+ "/v1/companies/3", Py.JDict []);
    (form_url "1",
     Py.JDict [ ("name", Py.JStr "Intake");
                ("values", Py.JList [ Py.JDict [ ("name", Py.JStr "phone");
                                                 ("value", Py.JStr "+1 555") ];
                                      Py.JDict [ ("name", Py.JStr "age");
                                                 ("value", Py.JInt 41) ] ]) ]);
    (form_url "2",
     Py.JDict [ ("name", Py.JStr "Home Geo Coordinates");
                ("values", Py.JList [ Py.JDict [ ("name", Py.JStr "lat");
                                                 ("value", Py.JStr "12.5") ] ]) ]);
    (form_url "3",
     Py.JDict [ ("name", Py.JStr "Survey"); ("values", Py.JList []) ]);
    (DayliteAPI.base_url +:+ "/v1/notes/1",
     Py.JDict [ ("title", Py.JStr "Call"); ("details", Py.JStr "Rang twice") ]);
    (DayliteAPI.base_url +:+ "/v1/notes/2",
     Py.JDict [ ("title", Py.JStr "Visit") ]) ].

Definition sample_api : DayliteAPI.t :=
  {| DayliteAPI.session_get := serving sample_pages; DayliteAPI.max_workers := 10 |}.

(** ** Further views, for the properties beyond the layout of a document *)

(** A string made only of characters that [\d] matches ([Py.is_digit]). *)
Fixpoint all_digits (s : string) : bool :=
  match s with
  | String c s' => Py.is_digit c && all_digits s'
  | EmptyString => true
  end.

(** The listing entry that the API serves for a contact: its self link. *)
Definition listed (link : string) : Py.json := Py.JDict [("self", Py.JStr link)].

(** [c] occurs in [s]. *)
Fixpoint has_char (c : ascii) (s : string) : bool :=
  match s with
  | String c' s' => Ascii.eqb c' c || has_char c s'
  | EmptyString => false
  end.

(** What each contact of a batch writes when it runs on an empty directory. *)
Definition written_by (self : DayliteAPI.t) (plan : DayliteAPI.Plan) (contact_id : string)
    : gmap string string :=
  fst (DayliteAPI._process_contact self (DayliteAPI.timing_of plan contact_id) contact_id ∅).

(** No contact is listed twice and no two contacts of the batch write the
    same file. *)
Definition no_collision (self : DayliteAPI.t) (plan : DayliteAPI.Plan) (ids : list string)
    : Prop :=
  NoDup ids
  ∧ ∀ a b, a ∈ ids → b ∈ ids → a ≠ b →
      written_by self plan a ##ₘ written_by self plan b.

(** The contacts run in the reverse of the order in which they were
    submitted; inside a contact nothing changes. *)
Definition reversed_plan : DayliteAPI.Plan :=
  {| DayliteAPI.timing_of := fun _ => steady;
     DayliteAPI.lock_order := Py.last_submitted_first;
     DayliteAPI.contacts_done := Py.last_submitted_first |}.

(** The block of a note whose body is the object [d]. *)
Definition note_block (d : list (string * Py.json)) : string :=
  Py.nl +:+ Py.py_str (from_option id (Py.JStr "No title found") (Py.dict_lookup "title" d))
  +:+ Py.nl
  +:+ Py.py_str (from_option id (Py.JStr "No content found") (Py.dict_lookup "details" d)).

Definition note_url (note_id : string) : string :=
  DayliteAPI.base_url +:+ "/v1/notes/" +:+ note_id.

(** An exception other than the two lookup errors. *)
Definition not_lookup_error (e : Py.exn) : Prop := e ≠ Py.KeyError ∧ e ≠ Py.IndexError.

(** ** Properties *)

Import Py DayliteAPI.

(** *** The error monad *)

Lemma bind_Ok_inv {A B} (m : result A) (f : A → result B) (b : B) :
  (m ≫= f) = Ok b → ∃ a, m = Ok a ∧ f a = Ok b.
Proof. destruct m as [a|e]; simpl; [eauto | discriminate]. Qed.

Lemma make_request_failed self url :
  session_get self url = None → _make_request self url = JNull.
Proof. unfold _make_request. by intros ->. Qed.

Lemma make_request_body self url body :
  session_get self url = Some body → _make_request self url = body.
Proof. unfold _make_request. by intros ->. Qed.

Lemma respond_same remote url outcome : respond remote url outcome url = outcome.
Proof. unfold respond. by rewrite String.eqb_refl. Qed.

(** *** Falsy bodies *)

Lemma extract_ids_falsy self :
  truthy (_make_request self listing_url) = false → extract_ids self = Ok [].
Proof. unfold extract_ids. fold listing_url. by intros ->. Qed.

Lemma process_contact_falsy self tm contact_id fs :
  truthy (_make_request self (contact_url contact_id)) = false →
  _process_contact self tm contact_id fs = (fs, Ok tt).
Proof. unfold _process_contact. fold (contact_url contact_id). by intros ->. Qed.

Lemma process_company_falsy self data info companies company link role :
  py_getitem data "companies" = Ok companies →
  py_index companies 0 = Ok company →
  py_getitem company "company" = Ok link →
  py_getitem company "role" = Ok role →
  truthy (_make_request self (base_url +:+ py_str link)) = false →
  process_company self data info
  = Ok (info ++ [JStr ("Job: " +:+ py_str role +:+ " at Unknown Company")]).
Proof.
  intros H1 H2 H3 H4 Hf. unfold process_company.
  rewrite H1; simpl. rewrite H2; simpl. rewrite H3; simpl.
  rewrite Hf; simpl. by rewrite H4.
Qed.

(** *** Strings *)

Lemma append_empty_inv (a b : string) : a +:+ b = "" → a = "" ∧ b = "".
Proof. destruct a; simpl; [auto | discriminate]. Qed.

Lemma join_empty_iff (l : list string) : join nl l = "" ↔ l = [] ∨ l = [""].
Proof.
  unfold join. destruct l as [|x [|y l]]; simpl.
  - tauto.
  - split; [intros ->; by right |].
    intros [H|H]; [discriminate | by injection H].
  - split; [| intros [H|H]; discriminate].
    intros H. apply append_empty_inv in H as [_ H]. discriminate.
Qed.

Lemma join_empty_perm (l1 l2 : list string) :
  l1 ≡ₚ l2 → String.eqb (join nl l1) "" = String.eqb (join nl l2) "".
Proof.
  intros HP.
  assert (H : join nl l1 = "" ↔ join nl l2 = "").
  { rewrite !join_empty_iff. split; intros [->| ->].
    - left. by apply Permutation_nil_l in HP.
    - right. by apply Permutation_singleton_l in HP.
    - left. by apply Permutation_nil_r in HP.
    - right. by apply Permutation_singleton_r in HP. }
  destruct (String.eqb_spec (join nl l1) ""), (String.eqb_spec (join nl l2) ""); tauto.
Qed.

Lemma split_on_nonempty sep s : split_on sep s ≠ [].
Proof. induction s as [|c s IH]; simpl; [done |]. by repeat case_match. Qed.

Lemma split_on_app sep a b :
  split_on sep (a +:+ String sep b) = split_on sep a ++ split_on sep b.
Proof.
  induction a as [|c a IH]; simpl.
  - by rewrite Ascii.eqb_refl.
  - destruct (Ascii.eqb c sep); [by rewrite IH |].
    rewrite IH. destruct (split_on sep a) eqn:E; [by apply split_on_nonempty in E | done].
Qed.

(** The lines of a joined document are the lines of its sections. *)
Lemma lines_of_join (sections : list string) :
  sections ≠ [] →
  split_on newline (join nl sections) = concat (map (split_on newline) sections).
Proof.
  unfold join, nl. induction sections as [|x [|y l] IH]; [done | |]; intros _.
  - simpl. by rewrite app_nil_r.
  - change (String.concat (String newline "") (x :: y :: l))
      with (x +:+ String newline (String.concat (String newline "") (y :: l))).
    rewrite split_on_app, IH by done. done.
Qed.


Lemma split_on_no_sep sep s :
  str_contains (String sep "") s = false → split_on sep s = [s].
Proof.
  induction s as [|c s IH]; [done |]. simpl.
  destruct (ascii_dec sep c) as [->|Hne].
  - simpl. by destruct s.
  - simpl. rewrite (proj2 (Ascii.eqb_neq c sep)) by congruence.
    intros H. by rewrite IH.
Qed.

Lemma line_of_section (sections : list string) (s : string) :
  s ∈ sections → str_contains nl s = false →
  s ∈ split_on newline (join nl sections).
Proof.
  intros Hin Hs. rewrite lines_of_join by (by intros ->; apply not_elem_of_nil in Hin).
  apply list_elem_of_In, in_concat. exists [s]. split; [| by left].
  apply in_map_iff. exists s. split; [| by apply list_elem_of_In].
  by apply split_on_no_sep.
Qed.

(** *** The blocks of [_process_contact] append to [contact_info] *)

(** Case analysis on the first call whose outcome is still unknown. *)
Ltac step :=
  match goal with
  | |- context [mbind _ ?m] =>
      lazymatch m with
      | Ok _ => fail
      | Raise _ => fail
      | context [mbind] => fail
      | _ => destruct m eqn:?; simpl
      end
  end.

(** Close a goal [block info = Ok info' → ∃ s, ...] once every call of the
    block has an outcome. *)
Ltac appended :=
  try case_bool_decide;
  let H := fresh in
  intros H; try discriminate; injection H as <-; eauto.

Lemma process_address_appends data info info' :
  process_address data info = Ok info' →
  ∃ s, info' = info ++ [JStr s]
       ∧ ∀ info2, process_address data info2 = Ok (info2 ++ [JStr s]).
Proof.
  unfold process_address, try_except. revert info'. repeat step; intros info'; appended.
Qed.

Lemma process_company_appends self data info info' :
  process_company self data info = Ok info' →
  ∃ s, info' = info ++ [JStr s]
       ∧ ∀ info2, process_company self data info2 = Ok (info2 ++ [JStr s]).
Proof.
  unfold process_company, try_except. revert info'.
  repeat step; try (destruct (truthy _); simpl); repeat step; intros info'; appended.
Qed.

Lemma extra_field_line_appends item info info' :
  extra_field_line info item = Ok info' →
  ∃ lines, info' = info ++ map JStr lines
           ∧ ∀ info2, extra_field_line info2 item = Ok (info2 ++ map JStr lines).
Proof.
  unfold extra_field_line. destruct item as [key field]. revert info'.
  step; [| discriminate]. destruct (truthy _); simpl.
  - repeat step; try discriminate. intros info' [= <-]. by eexists [_].
  - intros info' [= <-]. exists []. simpl. split; [by rewrite app_nil_r |].
    intros info2. by rewrite app_nil_r.
Qed.

Lemma foldM_extra_field_line items : ∀ info info',
  foldM extra_field_line info items = Ok info' →
  ∃ lines, info' = info ++ map JStr lines
           ∧ ∀ info2, foldM extra_field_line info2 items = Ok (info2 ++ map JStr lines).
Proof.
  induction items as [|item items IH]; intros info info'; simpl.
  - intros [= <-]. exists []. simpl. split; [by rewrite app_nil_r |].
    intros info2. by rewrite app_nil_r.
  - intros H. apply bind_Ok_inv in H as (mid & H1 & H2).
    apply extra_field_line_appends in H1 as (l1 & -> & Hall1).
    apply IH in H2 as (l2 & -> & Hall2).
    exists (l1 ++ l2). rewrite map_app, app_assoc. split; [done |].
    intros info2. by rewrite Hall1; simpl; rewrite Hall2, app_assoc.
Qed.

Lemma process_extra_fields_appends data info info' :
  process_extra_fields data info = Ok info' →
  ∃ lines, info' = info ++ map JStr lines
           ∧ ∀ info2, process_extra_fields data info2 = Ok (info2 ++ map JStr lines).
Proof.
  unfold process_extra_fields. revert info'.
  step; [| discriminate]. destruct (truthy _); simpl.
  - step; [| discriminate]. intros info' H.
    apply foldM_extra_field_line in H as (lines & -> & Hall).
    eexists (_ :: lines). simpl. split; [by rewrite <- app_assoc |].
    intros info2. rewrite Hall. by rewrite <- app_assoc.
  - intros info' [= <-]. exists []. simpl. split; [by rewrite app_nil_r |].
    intros info2. by rewrite app_nil_r.
Qed.

(** *** The two aggregators *)

Lemma process_forms_aggregate self done ids :
  _process_forms self done ids = aggregate self done (_process_single_form self) ids.
Proof. reflexivity. Qed.

Lemma process_notes_aggregate self done ids :
  _process_notes self done ids = aggregate self done (_process_single_note self) ids.
Proof. reflexivity. Qed.

Lemma process_forms_section_shape self done data info :
  process_forms_section self done data info
  = process_section "forms" "form" "No forms found" (_process_forms self done) data info.
Proof. reflexivity. Qed.

Lemma process_notes_section_shape self done data info :
  process_notes_section self done data info
  = process_section "notes" "note" "No notes found" (_process_notes self done) data info.
Proof. reflexivity. Qed.

Lemma foldM_collect_Ok results : ∀ acc,
  foldM collect acc (map Ok results) = Ok (acc ++ collected results).
Proof.
  induction results as [|r results IH]; intros acc; simpl.
  - by rewrite app_nil_r.
  - rewrite IH. unfold collected. simpl.
    destruct r as [s|]; [destruct (String.eqb s ""); simpl |]; try done.
    by rewrite <- app_assoc.
Qed.

Lemma foldM_collect_inv futures : ∀ acc data,
  foldM collect acc futures = Ok data → ∃ results, futures = map Ok results.
Proof.
  induction futures as [|[r|e] futures IH]; intros acc data; simpl.
  - by exists [].
  - intros H. apply IH in H as [results ->]. by exists (r :: results).
  - discriminate.
Qed.

Lemma foldM_collect_Raise futures : ∀ acc e,
  foldM collect acc futures = Raise e → Raise e ∈ futures.
Proof.
  induction futures as [|[r|e'] futures IH]; intros acc e; simpl.
  - discriminate.
  - intros H. apply IH in H. by right.
  - intros [= ->]. by left.
Qed.

Lemma collected_perm r1 r2 : r1 ≡ₚ r2 → collected r1 ≡ₚ collected r2.
Proof. intros H. unfold collected. by rewrite H. Qed.

(** A second completion order changes nothing but the order of the blocks. *)
Lemma aggregate_perm self done1 process_one ids text1 :
  aggregate self done1 process_one ids = Ok text1 →
  ∃ blocks1, text1 = join nl blocks1
    ∧ ∀ done2, ∃ blocks2, blocks1 ≡ₚ blocks2
        ∧ aggregate self done2 process_one ids = Ok (join nl blocks2).
Proof.
  unfold aggregate. destruct (ThreadPoolExecutor _); simpl; [| discriminate].
  intros H. apply bind_Ok_inv in H as (data & Hdata & [= <-]).
  destruct (foldM_collect_inv _ _ _ Hdata) as [results1 Hres1].
  rewrite Hres1, foldM_collect_Ok in Hdata. injection Hdata as <-.
  exists (collected results1). split; [done |]. intros done2.
  assert (HP : as_completed done2 (map process_one ids) ≡ₚ map Ok results1).
  { rewrite <- Hres1. by rewrite !as_completed_perm. }
  apply Permutation_map_inv in HP as (results2 & -> & HP).
  exists (collected results2). split; [by apply collected_perm |].
  by rewrite foldM_collect_Ok.
Qed.

(** What escapes an aggregator is what the pool or one of the tasks raised. *)
Lemma aggregate_Raise self done process_one ids e :
  aggregate self done process_one ids = Raise e →
  e = ValueError ∨ ∃ id, process_one id = Raise e.
Proof.
  unfold aggregate, ThreadPoolExecutor. case_match; simpl; [intros [= <-]; by left |].
  destruct (foldM _ _ _) eqn:Hfold; simpl; [discriminate |]. intros [= ->].
  apply foldM_collect_Raise in Hfold. rewrite as_completed_perm in Hfold.
  apply list_elem_of_In, in_map_iff in Hfold as (id & Hid & _). eauto.
Qed.

Lemma py_get_Raise obj key default e : py_get obj key default = Raise e → e = AttributeError.
Proof. destruct obj; simpl; congruence. Qed.

Lemma py_iter_Raise obj e : py_iter obj = Raise e → e = TypeError.
Proof. destruct obj; simpl; congruence. Qed.

Lemma form_value_line_Raise result value e :
  form_value_line result value = Raise e → e = AttributeError.
Proof.
  unfold form_value_line.
  destruct (py_get value "name" JNull) eqn:H1; simpl;
    [| intros [= <-]; by apply py_get_Raise in H1].
  destruct (py_get value "value" JNull) eqn:H2; simpl;
    [discriminate | intros [= <-]; by apply py_get_Raise in H2].
Qed.

Lemma foldM_form_value_line_Raise values : ∀ result e,
  foldM form_value_line result values = Raise e → e = AttributeError.
Proof.
  induction values as [|v values IH]; intros result e; simpl; [discriminate |].
  destruct (form_value_line result v) eqn:H1; simpl; [apply IH |].
  intros [= <-]. by apply form_value_line_Raise in H1.
Qed.

Lemma process_single_form_Raise self form_id e :
  _process_single_form self form_id = Raise e → e ≠ KeyError.
Proof.
  unfold _process_single_form. destruct (truthy _); simpl; [| discriminate].
  destruct (py_get _ "name" _) eqn:H1; simpl;
    [| intros [= <-]; apply py_get_Raise in H1; by subst].
  destruct (py_get _ "values" _) eqn:H2; simpl;
    [| intros [= <-]; apply py_get_Raise in H2; by subst].
  destruct (str_contains _ _); simpl; [discriminate |].
  destruct (py_iter _) eqn:H3; simpl;
    [| intros [= <-]; apply py_iter_Raise in H3; by subst].
  destruct (foldM _ _ _) eqn:H4; simpl; [discriminate |].
  intros [= <-]. apply foldM_form_value_line_Raise in H4. by subst.
Qed.

Lemma process_single_note_Raise self note_id e :
  _process_single_note self note_id = Raise e → e ≠ KeyError.
Proof.
  unfold _process_single_note. destruct (truthy _); simpl; [| discriminate].
  destruct (py_get _ "title" _) eqn:H1; simpl;
    [| intros [= <-]; apply py_get_Raise in H1; by subst].
  destruct (py_get _ "details" _) eqn:H2; simpl;
    [discriminate | intros [= <-]; apply py_get_Raise in H2; by subst].
Qed.

Lemma process_forms_Raise self done ids e :
  _process_forms self done ids = Raise e → e ≠ KeyError.
Proof.
  rewrite process_forms_aggregate. intros H.
  apply aggregate_Raise in H as [->|[id H]]; [done |].
  by apply process_single_form_Raise in H.
Qed.

Lemma process_notes_Raise self done ids e :
  _process_notes self done ids = Raise e → e ≠ KeyError.
Proof.
  rewrite process_notes_aggregate. intros H.
  apply aggregate_Raise in H as [->|[id H]]; [done |].
  by apply process_single_note_Raise in H.
Qed.

(** A forms or notes block under two completion orders: the same entry is
    appended, up to the order of the blocks joined in it. *)
Lemma process_section_perm key field fallback
    (many1 many2 : list string → result string) data info info' :
  (∀ ids e, many1 ids = Raise e → e ≠ KeyError) →
  (∀ ids text1, many1 ids = Ok text1 →
     ∃ blocks1 blocks2, text1 = join nl blocks1 ∧ blocks1 ≡ₚ blocks2
                        ∧ many2 ids = Ok (join nl blocks2)) →
  process_section key field fallback many1 data info = Ok info' →
  ∃ blocks1 blocks2, blocks1 ≡ₚ blocks2
    ∧ info' = info ++ [JStr (join nl blocks1)]
    ∧ (∀ info2, process_section key field fallback many1 data info2
                = Ok (info2 ++ [JStr (join nl blocks1)]))
    ∧ (∀ info2, process_section key field fallback many2 data info2
                = Ok (info2 ++ [JStr (join nl blocks2)])).
Proof.
  intros Hraise Hok. unfold process_section, try_except.
  assert (Hfb : ∀ P : list string → list string → Prop,
            P [fallback] [fallback] → ∃ b1 b2, P b1 b2) by eauto.
  destruct (py_getitem data key) as [items|e1]; simpl.
  2: { case_bool_decide; [| discriminate]. intros [= <-]. by apply Hfb. }
  destruct (py_iter items) as [l|e2]; simpl.
  2: { case_bool_decide; [| discriminate]. intros [= <-]. by apply Hfb. }
  destruct (mapM _ l) as [ids|e3]; simpl.
  2: { case_bool_decide; [| discriminate]. intros [= <-]. by apply Hfb. }
  destruct (many1 ids) as [text1|e4] eqn:H1; simpl.
  - intros [= <-]. destruct (Hok _ _ H1) as (b1 & b2 & -> & HP & H2).
    exists b1, b2. rewrite H2. simpl. done.
  - case_bool_decide as Hin; [| discriminate].
    apply Hraise in H1. apply list_elem_of_singleton in Hin. done.
Qed.

Lemma process_forms_section_perm self done1 done2 data info info' :
  process_forms_section self done1 data info = Ok info' →
  ∃ blocks1 blocks2, blocks1 ≡ₚ blocks2
    ∧ info' = info ++ [JStr (join nl blocks1)]
    ∧ (∀ info2, process_forms_section self done1 data info2
                = Ok (info2 ++ [JStr (join nl blocks1)]))
    ∧ (∀ info2, process_forms_section self done2 data info2
                = Ok (info2 ++ [JStr (join nl blocks2)])).
Proof.
  apply process_section_perm.
  - intros ids e. apply process_forms_Raise.
  - intros ids text1 H. rewrite process_forms_aggregate in H.
    apply aggregate_perm in H as (b1 & -> & Hall).
    destruct (Hall done2) as (b2 & HP & H2). by exists b1, b2.
Qed.

Lemma process_notes_section_perm self done1 done2 data info info' :
  process_notes_section self done1 data info = Ok info' →
  ∃ blocks1 blocks2, blocks1 ≡ₚ blocks2
    ∧ info' = info ++ [JStr (join nl blocks1)]
    ∧ (∀ info2, process_notes_section self done1 data info2
                = Ok (info2 ++ [JStr (join nl blocks1)]))
    ∧ (∀ info2, process_notes_section self done2 data info2
                = Ok (info2 ++ [JStr (join nl blocks2)])).
Proof.
  apply process_section_perm.
  - intros ids e. apply process_notes_Raise.
  - intros ids text1 H. rewrite process_notes_aggregate in H.
    apply aggregate_perm in H as (b1 & -> & Hall).
    destruct (Hall done2) as (b2 & HP & H2). by exists b1, b2.
Qed.

(** *** The layout of [contact_info] *)

(** Whatever the timing, [contact_info] is a contact record in the order of
    [sections_of]; a second timing yields the same record up to the order
    of the blocks inside the forms text and the notes text. *)
Lemma build_contact_info_layout self tm1 tm2 contact_id data filename info :
  build_contact_info self tm1 contact_id data = Ok (filename, info) →
  ∃ r fblocks1 fblocks2 nblocks1 nblocks2,
    info = sections_of r
    ∧ filename = contact_filename (rec_name r)
    ∧ read_from self contact_id data r
    ∧ rec_forms r = join nl fblocks1 ∧ rec_notes r = join nl nblocks1
    ∧ fblocks1 ≡ₚ fblocks2 ∧ nblocks1 ≡ₚ nblocks2
    ∧ build_contact_info self tm2 contact_id data
      = Ok (filename, sections_of (with_texts r (join nl fblocks2) (join nl nblocks2)))
    ∧ aggregated self tm1 data (join nl fblocks1) (join nl nblocks1)
    ∧ aggregated self tm2 data (join nl fblocks2) (join nl nblocks2).
Proof.
  unfold build_contact_info. intros H.
  apply bind_Ok_inv in H as (name & Hname & H).
  apply bind_Ok_inv in H as (details & Hdetails & H).
  apply bind_Ok_inv in H as (k & Hk & H).
  apply bind_Ok_inv in H as (ks & Hks & H).
  apply bind_Ok_inv in H as (kws & Hkws & H).
  apply bind_Ok_inv in H as (b & Hb & H).
  apply bind_Ok_inv in H as (a & Ha & H).
  apply bind_Ok_inv in H as (i1 & Haddr & H).
  apply bind_Ok_inv in H as (i2 & Hjob & H).
  apply bind_Ok_inv in H as (i3 & Hextra & H).
  apply bind_Ok_inv in H as (i4 & Hforms & H).
  apply bind_Ok_inv in H as (i5 & Hnotes & H).
  injection H as <- <-.
  apply process_address_appends in Haddr as (addr & -> & Haddr).
  apply process_company_appends in Hjob as (job & -> & Hjob).
  apply process_extra_fields_appends in Hextra as (extras & -> & Hextra).
  apply (process_forms_section_perm _ _ (forms_done tm2)) in Hforms
    as (fb1 & fb2 & HPf & -> & Hforms1 & Hforms2).
  apply (process_notes_section_perm _ _ (notes_done tm2)) in Hnotes
    as (nb1 & nb2 & HPn & -> & Hnotes1 & Hnotes2).
  exists {| rec_name := name; rec_details := details; rec_keywords := kws;
            rec_birthday := py_str b; rec_anniversary := py_str a;
            rec_address := addr; rec_job := job; rec_extra_fields := extras;
            rec_forms := join nl fb1; rec_notes := join nl nb1 |}, fb1, fb2, nb1, nb2.
  repeat split; simpl; try done.
  - by rewrite <- !app_assoc.
  - exists k. split; [done |]. rewrite Hks. simpl. done.
  - by exists b.
  - by exists a.
  - rewrite Hname; simpl. rewrite Hdetails; simpl. rewrite Hk; simpl.
    rewrite Hks; simpl. rewrite Hkws; simpl. rewrite Hb; simpl. rewrite Ha; simpl.
    rewrite Haddr; simpl. rewrite Hjob; simpl. rewrite Hextra; simpl.
    rewrite Hforms2; simpl. rewrite Hnotes2; simpl.
    unfold sections_of; simpl. by rewrite <- !app_assoc.
Qed.

(** *** What [_process_contact] writes *)

Lemma process_contact_written self tm contact_id fs fs' :
  truthy (_make_request self (contact_url contact_id)) = true →
  _process_contact self tm contact_id fs = (fs', Ok tt) →
  ∃ filename info text,
    build_contact_info self tm contact_id (_make_request self (contact_url contact_id))
    = Ok (filename, info)
    ∧ py_join nl (List.filter truthy info) = Ok text
    ∧ fs' = <[filename := text]> fs.
Proof.
  unfold _process_contact. fold (contact_url contact_id). intros ->. simpl.
  destruct (build_contact_info _ _ _ _) as [[filename info]|e]; [| intros [=]].
  destruct (py_join nl _) as [text|e] eqn:Hjoin; intros [= <-].
  by exists filename, info, text.
Qed.

Lemma process_contact_writes self tm contact_id fs filename info text :
  truthy (_make_request self (contact_url contact_id)) = true →
  build_contact_info self tm contact_id (_make_request self (contact_url contact_id))
  = Ok (filename, info) →
  py_join nl (List.filter truthy info) = Ok text →
  _process_contact self tm contact_id fs = (<[filename := text]> fs, Ok tt).
Proof.
  unfold _process_contact. fold (contact_url contact_id). by intros -> -> ->.
Qed.

Lemma joinable_JStr s : joinable (JStr s).
Proof. intros _. by exists s. Qed.

Lemma mapM_as_str_filter (info : list json) :
  Forall joinable info ↔ ∃ parts, mapM as_str (List.filter truthy info) = Ok parts.
Proof.
  induction info as [|v info IH]; simpl.
  - split; [by exists [] | by constructor].
  - destruct (truthy v) eqn:Hv; simpl.
    + split.
      * intros H. inversion H as [|? ? Hj Hrest]; subst.
        destruct (Hj Hv) as [s ->]. apply IH in Hrest as [parts ->]. simpl. eauto.
      * intros [parts H]. apply bind_Ok_inv in H as (s & Hs & H).
        apply bind_Ok_inv in H as (ps & Hps & _).
        constructor; [| apply IH; eauto].
        intros _. destruct v; try discriminate. eauto.
    + rewrite <- IH. split; [by inversion 1 |].
      intros H. constructor; [| done]. intros Ht. congruence.
Qed.

Lemma py_join_Ok_iff (info : list json) :
  Forall joinable info ↔ ∃ text, py_join nl (List.filter truthy info) = Ok text.
Proof.
  rewrite mapM_as_str_filter. unfold py_join. split.
  - intros [parts ->]. simpl. eauto.
  - intros [text H]. apply bind_Ok_inv in H as (parts & H & _). eauto.
Qed.

Lemma sections_joinable r :
  Forall joinable (sections_of r) ↔ joinable (rec_details r).
Proof.
  unfold sections_of. split.
  - intros H. inversion H as [|? ? _ H1]; subst. by inversion H1.
  - intros H. repeat (apply Forall_cons; split; [done || apply joinable_JStr |]).
    apply Forall_app. split.
    + apply Forall_forall. intros v Hv.
      apply list_elem_of_In, in_map_iff in Hv as (s & <- & _). apply joinable_JStr.
    + repeat (apply Forall_cons; split; [apply joinable_JStr |]). constructor.
Qed.

(** The entries that survive [filter(None, ...)] are the same under both
    texts as soon as the texts are empty together. *)
Lemma sections_truthy r forms2 notes2 :
  String.eqb (rec_forms r) "" = String.eqb forms2 "" →
  String.eqb (rec_notes r) "" = String.eqb notes2 "" →
  map truthy (sections_of r) = map truthy (sections_of (with_texts r forms2 notes2)).
Proof.
  intros Hf Hn. unfold sections_of. simpl.
  rewrite !map_app, !map_map. simpl. by rewrite Hf, Hn.
Qed.

Lemma with_texts_same r : with_texts r (rec_forms r) (rec_notes r) = r.
Proof. by destruct r. Qed.

(** C1. A document written by [_process_contact] lays its sections out in
    the order name, details, keywords, birthday, anniversary, address, job,
    extra fields, forms, notes: [contact_info] is the record [r1] in the
    order of [sections_of], where the fields up to the extra fields are read
    from the contact as [read_from] says, the forms text is what the forms
    block appends and the notes text is what the notes block appends. Under
    any other completion order of the form and note fetches the contact is
    written as well, to the same file, from the same record except that the
    blocks joined into the forms text and into the notes text may be
    permuted; the same entries are non-empty, so the same sections appear,
    in the same order. *)
Theorem sections_in_fixed_order self tm1 tm2 contact_id fs fs1 :
  truthy (_make_request self (contact_url contact_id)) = true →
  _process_contact self tm1 contact_id fs = (fs1, Ok tt) →
  ∃ filename r fblocks1 fblocks2 nblocks1 nblocks2 text1 text2,
    let data := _make_request self (contact_url contact_id) in
    let r1 := with_texts r (join nl fblocks1) (join nl nblocks1) in
    let r2 := with_texts r (join nl fblocks2) (join nl nblocks2) in
    read_from self contact_id data r
    ∧ fblocks1 ≡ₚ fblocks2 ∧ nblocks1 ≡ₚ nblocks2
    ∧ py_join nl (List.filter truthy (sections_of r1)) = Ok text1
    ∧ fs1 = <[filename := text1]> fs
    ∧ py_join nl (List.filter truthy (sections_of r2)) = Ok text2
    ∧ _process_contact self tm2 contact_id fs = (<[filename := text2]> fs, Ok tt)
    ∧ map truthy (sections_of r1) = map truthy (sections_of r2)
    ∧ build_contact_info self tm1 contact_id data = Ok (filename, sections_of r1)
    ∧ build_contact_info self tm2 contact_id data = Ok (filename, sections_of r2)
    ∧ aggregated self tm1 data (join nl fblocks1) (join nl nblocks1)
    ∧ aggregated self tm2 data (join nl fblocks2) (join nl nblocks2).
Proof.
  intros Hdata H1.
  destruct (process_contact_written _ _ _ _ _ Hdata H1)
    as (filename & info & text1 & Hbuild & Hjoin & ->).
  destruct (build_contact_info_layout _ _ tm2 _ _ _ _ Hbuild)
    as (r & fb1 & fb2 & nb1 & nb2 & -> & -> & Hread & Hf & Hn & HPf & HPn & Hbuild2
        & Hagg1 & Hagg2).
  assert (Hr : with_texts r (join nl fb1) (join nl nb1) = r).
  { rewrite <- Hf, <- Hn. apply with_texts_same. }
  assert (Hj2 : ∃ text2, py_join nl (List.filter truthy
                  (sections_of (with_texts r (join nl fb2) (join nl nb2)))) = Ok text2).
  { apply py_join_Ok_iff, sections_joinable. simpl.
    apply sections_joinable, py_join_Ok_iff. eauto. }
  destruct Hj2 as [text2 Hjoin2].
  exists (contact_filename (rec_name r)), r, fb1, fb2, nb1, nb2, text1, text2.
  intros data r1 r2. subst data r1 r2. rewrite Hr.
  do 6 (split; [done |]). split; [| split].
  - by apply process_contact_writes
      with (info := sections_of (with_texts r (join nl fb2) (join nl nb2))).
  - apply sections_truthy; rewrite ?Hf, ?Hn; by apply join_empty_perm.
  - split; [exact Hbuild |]. split; [exact Hbuild2 |]. split; [exact Hagg1 | exact Hagg2].
Qed.

Lemma sections_in_fixed_order_witness :
  ∃ filename r fblocks1 fblocks2 nblocks1 nblocks2 text1 text2,
    let data := _make_request sample_api (contact_url "7") in
    let r1 := with_texts r (join nl fblocks1) (join nl nblocks1) in
    let r2 := with_texts r (join nl fblocks2) (join nl nblocks2) in
    read_from sample_api "7" data r
    ∧ fblocks1 ≡ₚ fblocks2 ∧ nblocks1 ≡ₚ nblocks2
    ∧ py_join nl (List.filter truthy (sections_of r1)) = Ok text1
    ∧ fst (_process_contact sample_api steady "7" ∅) = <[filename := text1]> ∅
    ∧ py_join nl (List.filter truthy (sections_of r2)) = Ok text2
    ∧ _process_contact sample_api hasty "7" ∅ = (<[filename := text2]> ∅, Ok tt)
    ∧ map truthy (sections_of r1) = map truthy (sections_of r2)
    ∧ build_contact_info sample_api steady "7" data = Ok (filename, sections_of r1)
    ∧ build_contact_info sample_api hasty "7" data = Ok (filename, sections_of r2)
    ∧ aggregated sample_api steady data (join nl fblocks1) (join nl nblocks1)
    ∧ aggregated sample_api hasty data (join nl fblocks2) (join nl nblocks2).
Proof.
  apply (sections_in_fixed_order sample_api steady hasty "7" ∅
           (fst (_process_contact sample_api steady "7" ∅)));
    vm_compute; reflexivity.
Defined.

(** *** Empty collections *)

Lemma pool_of_nothing self (ids : list string) :
  ids = [] → ThreadPoolExecutor (Z.min (Z.of_nat (length ids)) (max_workers self)) = Raise ValueError.
Proof.
  intros ->. unfold ThreadPoolExecutor.
  rewrite (proj2 (Z.leb_le _ 0)); [done |].
  change (Z.of_nat (length [])) with 0. lia.
Qed.

Lemma process_forms_nil self done : _process_forms self done [] = Raise ValueError.
Proof. unfold _process_forms. by rewrite pool_of_nothing. Qed.

Lemma process_notes_nil self done : _process_notes self done [] = Raise ValueError.
Proof. unfold _process_notes. by rewrite pool_of_nothing. Qed.

Lemma process_forms_section_nil self done d info :
  dict_lookup "forms" d = Some (JList []) →
  process_forms_section self done (JDict d) info = Raise ValueError.
Proof.
  intros H. unfold process_forms_section. simpl. rewrite H. simpl.
  by rewrite process_forms_nil.
Qed.

Lemma process_notes_section_nil self done d info :
  dict_lookup "notes" d = Some (JList []) →
  process_notes_section self done (JDict d) info = Raise ValueError.
Proof.
  intros H. unfold process_notes_section. simpl. rewrite H. simpl.
  by rewrite process_notes_nil.
Qed.

Lemma bind_raises {A B} (m : result A) (f : A → result B) :
  (∀ a, ∃ e, f a = Raise e) → ∃ e, (m ≫= f) = Raise e.
Proof. intros H. destruct m as [a|e]; simpl; eauto. Qed.

Lemma build_contact_info_raises self tm contact_id d :
  dict_lookup "forms" d = Some (JList []) ∨ dict_lookup "notes" d = Some (JList []) →
  ∃ e, build_contact_info self tm contact_id (JDict d) = Raise e.
Proof.
  intros H. unfold build_contact_info.
  do 10 (apply bind_raises; intros ?).
  destruct H as [H|H].
  - rewrite process_forms_section_nil by done. simpl. eauto.
  - apply bind_raises; intros ?.
    rewrite process_notes_section_nil by done. simpl. eauto.
Qed.

(** C6. When the [forms] (or [notes]) key of a contact holds an empty list,
    the pool of the aggregator is asked for [min(0, max_workers)] workers and
    raises [ValueError]; the forms (notes) block lets it through, and
    [_process_contact] ends with an exception and the directory untouched:
    no file is written for that contact. *)
Theorem empty_collection_aborts_contact self tm contact_id fs d :
  session_get self (contact_url contact_id) = Some (JDict d) →
  dict_lookup "forms" d = Some (JList []) ∨ dict_lookup "notes" d = Some (JList []) →
  (∀ done, _process_forms self done [] = Raise ValueError
           ∧ _process_notes self done [] = Raise ValueError)
  ∧ (dict_lookup "forms" d = Some (JList []) →
     ∀ done info, process_forms_section self done (JDict d) info = Raise ValueError)
  ∧ (dict_lookup "notes" d = Some (JList []) →
     ∀ done info, process_notes_section self done (JDict d) info = Raise ValueError)
  ∧ ∃ e, _process_contact self tm contact_id fs = (fs, Raise e).
Proof.
  intros Hget Hempty. split; [| split; [| split]].
  - intros done. split; [apply process_forms_nil | apply process_notes_nil].
  - intros H done info. by apply process_forms_section_nil.
  - intros H done info. by apply process_notes_section_nil.
  - unfold _process_contact. fold (contact_url contact_id).
    rewrite (make_request_body _ _ _ Hget).
    assert (Ht : truthy (JDict d) = true).
    { destruct d; [by destruct Hempty | done]. }
    rewrite Ht. simpl.
    destruct (build_contact_info_raises self tm contact_id d Hempty) as [e ->]. eauto.
Qed.

Lemma empty_collection_aborts_contact_witness :
  ∃ e, _process_contact sample_api steady "9" ∅ = (∅, Raise e).
Proof.
  apply (empty_collection_aborts_contact sample_api steady "9" ∅
           [("full_name", JStr "Bo"); ("forms", JList [])]).
  - reflexivity.
  - left. reflexivity.
Defined.

(** *** Lines of the written text *)

Lemma mapM_as_str_elem (l : list json) parts s :
  mapM as_str l = Ok parts → JStr s ∈ l → s ∈ parts.
Proof.
  revert parts. induction l as [|v l IH]; intros parts; simpl.
  - intros _ H. by apply not_elem_of_nil in H.
  - intros H Hin. apply bind_Ok_inv in H as (p & Hp & H).
    apply bind_Ok_inv in H as (ps & Hps & [= <-]).
    apply elem_of_cons in Hin as [<-|Hin].
    + injection Hp as <-. by left.
    + right. by apply IH.
Qed.

(** A non-empty entry without a line break is a line of the written text. *)
Lemma section_written (info : list json) text s :
  py_join nl (List.filter truthy info) = Ok text →
  JStr s ∈ info → s ≠ "" → str_contains nl s = false →
  s ∈ split_on newline text.
Proof.
  unfold py_join. intros H Hin Hne Hnl.
  apply bind_Ok_inv in H as (parts & Hparts & [= <-]).
  apply line_of_section; [| done].
  apply (mapM_as_str_elem _ _ _ Hparts).
  apply list_elem_of_In, filter_In. split; [by apply list_elem_of_In |].
  simpl. by destruct (String.eqb_spec s "").
Qed.

Lemma process_address_fallback d info :
  dict_lookup "addresses" d = None ∨ dict_lookup "addresses" d = Some (JList []) →
  process_address (JDict d) info = Ok (info ++ [JStr "No location found"]).
Proof. unfold process_address. simpl. by intros [-> | ->]. Qed.

(** C8. A contact whose record has no [addresses] key, or an empty
    [addresses] list, gets the same address entry, and the written document
    has the line "No location found". *)
Theorem missing_address_fallback self tm contact_id fs fs' d :
  session_get self (contact_url contact_id) = Some (JDict d) →
  d ≠ [] →
  dict_lookup "addresses" d = None ∨ dict_lookup "addresses" d = Some (JList []) →
  _process_contact self tm contact_id fs = (fs', Ok tt) →
  (∀ info, process_address (JDict d) info = Ok (info ++ [JStr "No location found"]))
  ∧ ∃ filename text,
      fs' = <[filename := text]> fs
      ∧ "No location found" ∈ split_on newline text.
Proof.
  intros Hget Hd Haddr Hrun. split; [intros info; apply process_address_fallback; exact Haddr |].
  assert (Hdata : _make_request self (contact_url contact_id) = JDict d)
    by by apply make_request_body.
  assert (Ht : truthy (_make_request self (contact_url contact_id)) = true).
  { rewrite Hdata. by destruct d. }
  destruct (process_contact_written _ _ _ _ _ Ht Hrun)
    as (filename & info & text & Hbuild & Hjoin & ->).
  destruct (build_contact_info_layout _ _ tm _ _ _ _ Hbuild)
    as (r & _ & _ & _ & _ & -> & _ & Hread & _).
  destruct Hread as (_ & _ & _ & _ & _ & Hr & _).
  rewrite Hdata in Hr. specialize (Hr []).
  rewrite (process_address_fallback d [] Haddr) in Hr. injection Hr as Hr.
  exists filename, text. split; [done |].
  apply (section_written _ _ _ Hjoin); [| done | done].
  unfold sections_of. rewrite <- Hr.
  apply list_elem_of_In. simpl. do 5 right. by left.
Qed.

Lemma missing_address_fallback_witness :
  ∃ filename text,
    fst (_process_contact sample_api steady "10" ∅) = <[filename := text]> ∅
    ∧ "No location found" ∈ split_on newline text.
Proof.
  apply (missing_address_fallback sample_api steady "10" ∅
           (fst (_process_contact sample_api steady "10" ∅))
           [ ("full_name", JStr "Ann");
             ("extra_fields",
              JDict [ ("custom1", JDict [ ("value", JStr "x");
                                          ("display_name", JStr "") ]) ]) ]).
  - reflexivity.
  - discriminate.
  - left. reflexivity.
  - vm_compute. reflexivity.
Defined.

(** *** Extra fields *)

Lemma display_name_of_override key field :
  override key ≠ "" → display_name_of key field = Ok (JStr (override key)).
Proof.
  unfold display_name_of, override.
  destruct (names_get key extra_field_names) as [custom|]; simpl; [| done].
  intros H. by destruct (String.eqb_spec custom "").
Qed.

Lemma display_name_of_declared key d :
  override key = "" →
  display_name_of key (JDict d)
  = Ok (from_option id (JStr key) (dict_lookup "display_name" d)).
Proof.
  unfold display_name_of, override.
  destruct (names_get key extra_field_names) as [custom|]; simpl; [| done].
  by intros ->.
Qed.

(** C5, the claim fails: contact 10 of the sample declares an empty display
    name for its field [custom1]; the emitted line carries that empty name,
    not the key, which is the first non-empty candidate. Besides, a value
    that is not empty but falsy, as the number 0 or [false], is dropped. *)
Lemma empty_declared_name_is_used :
  let field := [("value", JStr "x"); ("display_name", JStr "")] in
  extra_field_line [] ("custom1", JDict field) = Ok [JStr " - : x"]
  ∧ spec_display_name "custom1" field = JStr "custom1"
  ∧ display_name_of "custom1" (JDict field) ≠ Ok (spec_display_name "custom1" field)
  ∧ extra_field_line [] ("custom1", JDict [("value", JInt 0)]) = Ok []
  ∧ extra_field_line [] ("custom1", JDict [("value", JBool false)]) = Ok [].
Proof. vm_compute. repeat split; discriminate. Qed.

(** C5, amended. An extra field with a truthy value is emitted as
    [ - name: value], where the name is the override when the table has a
    non-empty one for the key, otherwise the declared [display_name] whenever
    the field has that key (even when it is empty), otherwise the key. A
    field whose value is absent or falsy is dropped. *)
Theorem display_name_resolution key d info :
  (∀ v, dict_lookup "value" d = Some v → truthy v = true →
     ∃ name,
       extra_field_line info (key, JDict d)
       = Ok (info ++ [JStr (" - " +:+ py_str name +:+ ": " +:+ py_str v)])
       ∧ (override key ≠ "" → name = JStr (override key))
       ∧ (override key = "" →
          ∀ declared, dict_lookup "display_name" d = Some declared → name = declared)
       ∧ (override key = "" → dict_lookup "display_name" d = None → name = JStr key))
  ∧ (dict_lookup "value" d = None
     ∨ (∃ v, dict_lookup "value" d = Some v ∧ truthy v = false) →
     extra_field_line info (key, JDict d) = Ok info).
Proof.
  split.
  - intros v Hv Ht. unfold extra_field_line. simpl. rewrite Hv. simpl. rewrite Ht.
    destruct (String.eqb_spec (override key) "") as [He|Hne].
    + rewrite (display_name_of_declared _ _ He). simpl.
      exists (from_option id (JStr key) (dict_lookup "display_name" d)).
      split; [reflexivity |]. split; [done |]. split.
      * by intros _ declared ->.
      * by intros _ ->.
    + rewrite (display_name_of_override _ _ Hne). simpl.
      exists (JStr (override key)). split; [reflexivity |]. split; [done |]. split; intros He; by destruct Hne.
  - unfold extra_field_line. simpl. intros [-> | (v & -> & Hf)]; simpl; [done |].
    by rewrite Hf.
Qed.

Lemma display_name_resolution_witness :
  ∃ name,
    extra_field_line [] ("com.marketcircle.daylite/extra2",
                         JDict [("value", JInt 3); ("display_name", JStr "Tier")])
    = Ok ([] ++ [JStr (" - " +:+ py_str name +:+ ": " +:+ py_str (JInt 3))])
    ∧ name = JStr "Tier".
Proof.
  destruct (proj1 (display_name_resolution "com.marketcircle.daylite/extra2"
                     [("value", JInt 3); ("display_name", JStr "Tier")] [])
              (JInt 3) eq_refl eq_refl) as (name & Hline & _ & Hdeclared & _).
  exists name. split; [exact Hline |]. by apply Hdeclared.
Defined.

(** *** Forms *)

Lemma process_single_form_unfold self form_id d :
  session_get self (form_url form_id) = Some (JDict d) → d ≠ [] →
  _process_single_form self form_id
  = let form_name := from_option id (JStr "Unknown Form Name") (dict_lookup "name" d) in
    let values := from_option id (JList []) (dict_lookup "values" d) in
    if negb (str_contains "Geo Coordinates" (py_str form_name)) then
      vs ← py_iter values;
      result ← foldM form_value_line (form_header form_name) vs;
      Ok (Some (join nl result))
    else Ok None.
Proof.
  intros Hget Hd. unfold _process_single_form. fold (form_url form_id).
  rewrite (make_request_body _ _ _ Hget). by destruct d.
Qed.

Lemma form_value_line_plus result dv v :
  dict_lookup "value" dv = Some v → str_contains "+" (py_str v) = true →
  form_value_line result (JDict dv) = Ok result.
Proof.
  intros Hv Hplus. unfold form_value_line. simpl. rewrite Hv. simpl.
  rewrite Hplus. by destruct v.
Qed.

Lemma foldM_app {A B} (f : B → A → result B) l1 l2 acc :
  foldM f acc (l1 ++ l2) = (mid ← foldM f acc l1; foldM f mid l2).
Proof.
  revert acc. induction l1 as [|x l1 IH]; intros acc; simpl; [done |].
  destruct (f acc x); simpl; [apply IH | done].
Qed.

Lemma foldM_form_value_line_plus vs1 vs2 dv v result :
  dict_lookup "value" dv = Some v → str_contains "+" (py_str v) = true →
  foldM form_value_line result (vs1 ++ JDict dv :: vs2)
  = foldM form_value_line result (vs1 ++ vs2).
Proof.
  intros Hv Hplus. rewrite !foldM_app.
  destruct (foldM form_value_line result vs1) as [mid|e]; [| done].
  change (foldM form_value_line mid (JDict dv :: vs2)
          = foldM form_value_line mid vs2).
  change (foldM form_value_line mid (JDict dv :: vs2))
    with (form_value_line mid (JDict dv) ≫= λ acc, foldM form_value_line acc vs2).
  by rewrite (form_value_line_plus _ _ _ Hv Hplus).
Qed.

Lemma map_Ok_inj {A} (l1 l2 : list A) : map (@Ok A) l1 = map Ok l2 → l1 = l2.
Proof.
  revert l2. induction l1 as [|x l1 IH]; intros [|y l2]; simpl; try done.
  intros [= -> H]. by rewrite (IH _ H).
Qed.

(** The text of an aggregator is joined from the kept results of its tasks,
    in some order. *)
Lemma aggregate_blocks self done process_one ids text :
  aggregate self done process_one ids = Ok text →
  ∃ results blocks,
    map process_one ids = map Ok results
    ∧ blocks ≡ₚ collected results
    ∧ text = join nl blocks.
Proof.
  unfold aggregate. destruct (ThreadPoolExecutor _); simpl; [| discriminate].
  intros H. apply bind_Ok_inv in H as (data & Hdata & [= <-]).
  destruct (foldM_collect_inv _ _ _ Hdata) as [results1 Hres1].
  rewrite Hres1, foldM_collect_Ok in Hdata. injection Hdata as <-.
  assert (HP : map process_one ids ≡ₚ map Ok results1).
  { rewrite <- Hres1. by rewrite as_completed_perm. }
  apply Permutation_map_inv in HP as (results & -> & HP).
  exists results, (collected results1). split; [done |]. split; [| done].
  by apply collected_perm.
Qed.

(** C3, the claim fails: form 1 of the sample has a value with a plus sign
    and is still part of the forms text, with its header and its other
    value. *)
Lemma plus_value_keeps_form :
  str_contains "+" (py_str (JStr "+1 555")) = true
  ∧ _process_forms sample_api in_submission_order ["1"]
    = Ok (nl +:+ "Form Name: Intake" +:+ nl +:+ nl +:+ nl +:+ " - age: 41").
Proof. vm_compute. done. Qed.

(** C3, amended. A form whose name contains "Geo Coordinates" yields
    nothing, whatever its values: the aggregated forms text is joined from
    the results of the other forms only. A value whose stringified content
    contains a plus sign adds no line: the form yields what it would yield
    without that value, header included. *)
Theorem geo_form_and_plus_value_skipped self form_id d :
  session_get self (form_url form_id) = Some (JDict d) → d ≠ [] →
  let form_name := from_option id (JStr "Unknown Form Name") (dict_lookup "name" d) in
  (str_contains "Geo Coordinates" (py_str form_name) = true →
   _process_single_form self form_id = Ok None
   ∧ ∀ done ids1 ids2 text,
       _process_forms self done (ids1 ++ form_id :: ids2) = Ok text →
       ∃ others blocks,
         map (_process_single_form self) (ids1 ++ ids2) = map Ok others
         ∧ blocks ≡ₚ collected others
         ∧ text = join nl blocks)
  ∧ (str_contains "Geo Coordinates" (py_str form_name) = false →
     ∀ vs1 vs2 dv v,
       dict_lookup "values" d = Some (JList (vs1 ++ JDict dv :: vs2)) →
       dict_lookup "value" dv = Some v →
       str_contains "+" (py_str v) = true →
       _process_single_form self form_id
       = (result ← foldM form_value_line (form_header form_name) (vs1 ++ vs2);
          Ok (Some (join nl result)))).
Proof.
  intros Hget Hd form_name. split.
  - intros Hgeo.
    assert (Hnone : _process_single_form self form_id = Ok None).
    { rewrite (process_single_form_unfold _ _ _ Hget Hd). simpl.
      fold form_name. by rewrite Hgeo. }
    split; [done |]. intros done ids1 ids2 text H.
    rewrite process_forms_aggregate in H.
    apply aggregate_blocks in H as (results & blocks & Hres & HP & ->).
    rewrite map_app in Hres. simpl in Hres. rewrite Hnone in Hres.
    symmetry in Hres. apply map_eq_app in Hres as (r1 & r2 & -> & Hr1 & Hr2).
    destruct r2 as [|r r2]; [discriminate |]. simpl in Hr2.
    injection Hr2 as -> Hr2.
    exists (r1 ++ r2), blocks. split; [by rewrite !map_app, Hr1, Hr2 |].
    split; [| done]. rewrite HP. unfold collected. by rewrite !omap_app.
  - intros Hgeo vs1 vs2 dv v Hvalues Hv Hplus.
    rewrite (process_single_form_unfold _ _ _ Hget Hd). simpl.
    fold form_name. rewrite Hgeo, Hvalues. simpl.
    by rewrite (foldM_form_value_line_plus _ _ _ _ _ Hv Hplus).
Qed.

Lemma geo_form_and_plus_value_skipped_witness :
  _process_single_form sample_api "2" = Ok None
  ∧ ∃ text others blocks,
      _process_forms sample_api last_submitted_first (["1"] ++ "2" :: ["3"]) = Ok text
      ∧ map (_process_single_form sample_api) (["1"] ++ ["3"]) = map Ok others
      ∧ blocks ≡ₚ collected others
      ∧ text = join nl blocks.
Proof.
  destruct (geo_form_and_plus_value_skipped sample_api "2"
              [ ("name", JStr "Home Geo Coordinates");
                ("values", JList [ JDict [ ("name", JStr "lat");
                                           ("value", JStr "12.5") ] ]) ]
              eq_refl ltac:(discriminate)) as [Hgeo _].
  destruct (Hgeo eq_refl) as [Hnone Hothers]. split; [exact Hnone |].
  destruct (_process_forms sample_api last_submitted_first (["1"] ++ "2" :: ["3"]))
    as [text|e] eqn:Hrun; [| vm_compute in Hrun; discriminate].
  destruct (Hothers _ _ _ _ Hrun) as (others & blocks & H1 & H2 & H3).
  by exists text, others, blocks.
Defined.

(** *** Header and file name *)

Lemma str_take_all n s : (String.length s ≤ n)%nat → str_take n s = s.
Proof.
  revert n. induction s as [|c s IH]; intros [|n]; simpl; try done; [lia |].
  intros H. rewrite IH; [done | lia].
Qed.

Lemma contact_name_inv contact_id d name :
  contact_name contact_id (JDict d) = Ok name →
  ∃ raw, name = str_remove [slash; backslash] raw
    ∧ (dict_lookup "full_name" d = Some (JStr raw)
       ∨ (dict_lookup "full_name" d = None ∧ raw = "MissingName" +:+ contact_id)).
Proof.
  unfold contact_name. simpl.
  destruct (dict_lookup "full_name" d) as [[| | |raw| |]|]; simpl; try discriminate.
  - intros [= <-]. exists raw. split; [reflexivity |]. by left.
  - intros [= <-]. exists ("MissingName" +:+ contact_id). split; [reflexivity |]. by right.
Qed.

Lemma mapM_as_str_truthy (l : list json) parts :
  mapM as_str l = Ok parts → Forall (λ v, truthy v = true) l → "" ∉ parts.
Proof.
  revert parts. induction l as [|v l IH]; intros parts; simpl.
  - intros [= <-] _. apply not_elem_of_nil.
  - intros H Hall. apply bind_Ok_inv in H as (p & Hp & H).
    apply bind_Ok_inv in H as (ps & Hps & [= <-]).
    inversion Hall as [|? ? Hv Hrest]; subst.
    apply not_elem_of_cons. split; [| by apply IH].
    destruct v; try discriminate. injection Hp as <-. intros <-. discriminate.
Qed.

(** The written text is the join of the truthy entries, none of them
    empty; every non-empty [str] entry is among them. *)
Lemma joined_parts (info : list json) text :
  py_join nl (List.filter truthy info) = Ok text →
  ∃ parts, mapM as_str (List.filter truthy info) = Ok parts
    ∧ text = join nl parts ∧ ("" ∉ parts)
    ∧ ∀ s, JStr s ∈ info → s ≠ "" → s ∈ parts.
Proof.
  unfold py_join. intros H. apply bind_Ok_inv in H as (parts & Hparts & [= <-]).
  exists parts. split; [done |]. split; [done |]. split.
  - apply (mapM_as_str_truthy _ _ Hparts).
    apply Forall_forall. intros v Hv. by apply list_elem_of_In, filter_In in Hv as [_ Hv].
  - intros s Hin Hne. apply (mapM_as_str_elem _ _ _ Hparts).
    apply list_elem_of_In, filter_In. split; [by apply list_elem_of_In |].
    simpl. by destruct (String.eqb_spec s "").
Qed.

(** C4, the claim fails: the header of contact 7 of the sample is the whole
    name, the stem of the file name is its first 20 characters. *)
Lemma header_is_not_truncated :
  ∃ text,
    fst (_process_contact sample_api steady "7" ∅) !! "Alexander Maximilian.txt" = Some text
    ∧ head (split_on newline text) = Some "Alexander Maximilian Schwarzenegger"
    ∧ str_take 20 "Alexander Maximilian Schwarzenegger" = "Alexander Maximilian"
    ∧ "Alexander Maximilian Schwarzenegger" ≠ "Alexander Maximilian".
Proof.
  eexists. split; [vm_compute; reflexivity |]. vm_compute. repeat split; discriminate.
Qed.

(** C4, amended. The name with the path separators removed (taken from
    [full_name], or [MissingName] followed by the id when that key is absent)
    is the first entry of the document in full, whenever it is not empty; the
    file is named after its first 20 characters with surrounding white space
    removed, followed by [.txt]. Header and stem are the same string when the
    name has at most 20 characters and no surrounding white space. *)
Theorem header_and_filename self tm contact_id fs fs' d :
  session_get self (contact_url contact_id) = Some (JDict d) →
  d ≠ [] →
  _process_contact self tm contact_id fs = (fs', Ok tt) →
  ∃ raw name text,
    (dict_lookup "full_name" d = Some (JStr raw)
     ∨ (dict_lookup "full_name" d = None ∧ raw = "MissingName" +:+ contact_id))
    ∧ name = str_remove [slash; backslash] raw
    ∧ fs' = <[strip (str_take 20 name) +:+ ".txt" := text]> fs
    ∧ (name ≠ "" → ∃ rest, text = name +:+ nl +:+ rest)
    ∧ ((String.length name ≤ 20)%nat → strip name = name →
       strip (str_take 20 name) = name).
Proof.
  intros Hget Hd Hrun.
  assert (Hdata : _make_request self (contact_url contact_id) = JDict d)
    by by apply make_request_body.
  assert (Ht : truthy (_make_request self (contact_url contact_id)) = true).
  { rewrite Hdata. by destruct d. }
  destruct (process_contact_written _ _ _ _ _ Ht Hrun)
    as (filename & info & text & Hbuild & Hjoin & ->).
  destruct (build_contact_info_layout _ _ tm _ _ _ _ Hbuild)
    as (r & _ & _ & _ & _ & -> & -> & Hread & _).
  destruct Hread as (Hname & _).
  rewrite Hdata in Hname. apply contact_name_inv in Hname as (raw & Hraw & Hfrom).
  exists raw, (rec_name r), text. split; [done |]. split; [done |]. split; [done |]. split.
  - intros Hne. unfold sections_of in Hjoin. simpl in Hjoin.
    destruct (String.eqb_spec (rec_name r) "") as [|_]; [done |]. simpl in Hjoin.
    unfold py_join in Hjoin. simpl in Hjoin.
    apply bind_Ok_inv in Hjoin as (parts & Hparts & [= <-]).
    apply bind_Ok_inv in Hparts as (ps & Hps & [= <-]).
    assert (Hkw : "Keywords: " +:+ rec_keywords r ∈ ps).
    { apply (mapM_as_str_elem _ _ _ Hps).
      destruct (truthy (rec_details r)); [right |]; by left. }
    destruct ps as [|p ps]; [by apply not_elem_of_nil in Hkw |].
    by exists (join nl (p :: ps)).
  - intros Hlen Hstrip. by rewrite str_take_all.
Qed.

Lemma header_and_filename_witness :
  ∃ raw name text,
    (dict_lookup "full_name" [("full_name", JStr "Bo/b")] = Some (JStr raw)
     ∨ (dict_lookup "full_name" [("full_name", JStr "Bo/b")] = None
        ∧ raw = "MissingName" +:+ "1"))
    ∧ name = str_remove [slash; backslash] raw
    ∧ fst (_process_contact
             {| session_get := serving [(contact_url "1", JDict [("full_name", JStr "Bo/b")])];
                max_workers := 10 |} steady "1" ∅)
      = <[strip (str_take 20 name) +:+ ".txt" := text]> ∅
    ∧ (name ≠ "" → ∃ rest, text = name +:+ nl +:+ rest)
    ∧ ((String.length name ≤ 20)%nat → strip name = name →
       strip (str_take 20 name) = name).
Proof.
  apply (header_and_filename
           {| session_get := serving [(contact_url "1", JDict [("full_name", JStr "Bo/b")])];
              max_workers := 10 |} steady "1" ∅ _ [("full_name", JStr "Bo/b")]).
  - reflexivity.
  - discriminate.
  - vm_compute. reflexivity.
Defined.

(** *** Empty entries *)

Lemma py_get_absent d key default :
  dict_lookup key d = None → py_get (JDict d) key default = Ok default.
Proof. simpl. by intros ->. Qed.

(** C2, the claim fails: the record of contact 10 of the sample has no
    keywords, no birthday and no anniversary, and its document has a line
    for each of them, made of the bare label. *)
Lemma absent_fields_leave_labels :
  let d := [ ("full_name", JStr "Ann");
             ("extra_fields",
              JDict [ ("custom1", JDict [ ("value", JStr "x");
                                          ("display_name", JStr "") ]) ]) ] in
  session_get sample_api (contact_url "10") = Some (JDict d)
  ∧ dict_lookup "keywords" d = None
  ∧ dict_lookup "birthday" d = None
  ∧ dict_lookup "anniversary" d = None
  ∧ ∃ text,
      fst (_process_contact sample_api steady "10" ∅) !! "Ann.txt" = Some text
      ∧ take 4 (split_on newline text)
        = ["Ann"; "Keywords: "; "Birthday: "; "Anniversary: "].
Proof.
  repeat (split; [reflexivity |]). eexists. split; vm_compute; reflexivity.
Qed.

Lemma mapM_as_str_map (l : list json) parts : mapM as_str l = Ok parts → l = map JStr parts.
Proof.
  revert parts. induction l as [|v l IH]; intros parts; simpl.
  - by intros [= <-].
  - intros H. apply bind_Ok_inv in H as (p & Hp & H).
    apply bind_Ok_inv in H as (ps & Hps & [= <-]).
    destruct v; try discriminate. injection Hp as <-. simpl. f_equal. by apply IH.
Qed.

(** C2, amended. [contact_info] is the record [r] that the code builds from
    the contact, and the written text is the join of exactly its truthy
    entries, in order: an entry that is falsy (the empty string, as the
    details entry of a contact without [details], or a null, zero, false or
    empty details value) is left out, and no entry of the text is empty. The
    keywords, birthday and anniversary entries are always written; when the
    field is absent they are the bare labels. *)
Theorem empty_entries_omitted self tm contact_id fs fs' d :
  session_get self (contact_url contact_id) = Some (JDict d) →
  d ≠ [] →
  _process_contact self tm contact_id fs = (fs', Ok tt) →
  ∃ filename r parts,
    build_contact_info self tm contact_id (JDict d) = Ok (filename, sections_of r)
    ∧ read_from self contact_id (JDict d) r
    ∧ aggregated self tm (JDict d) (rec_forms r) (rec_notes r)
    ∧ List.filter truthy (sections_of r) = map JStr parts
    ∧ fs' = <[filename := join nl parts]> fs
    ∧ ("" ∉ parts)
    ∧ (dict_lookup "details" d = None → rec_details r = JStr "")
    ∧ (dict_lookup "keywords" d = None → rec_keywords r = "")
    ∧ (dict_lookup "birthday" d = None → rec_birthday r = "")
    ∧ (dict_lookup "anniversary" d = None → rec_anniversary r = "")
    ∧ "Keywords: " +:+ rec_keywords r ∈ parts
    ∧ "Birthday: " +:+ rec_birthday r ∈ parts
    ∧ "Anniversary: " +:+ rec_anniversary r ∈ parts.
Proof.
  intros Hget Hd Hrun.
  assert (Hdata : _make_request self (contact_url contact_id) = JDict d)
    by by apply make_request_body.
  assert (Ht : truthy (_make_request self (contact_url contact_id)) = true).
  { rewrite Hdata. by destruct d. }
  destruct (process_contact_written _ _ _ _ _ Ht Hrun)
    as (filename & info & text & Hbuild & Hjoin & ->).
  destruct (build_contact_info_layout _ _ tm _ _ _ _ Hbuild)
    as (r & fb1 & _ & nb1 & _ & -> & -> & Hread & Hf & Hn & _ & _ & _ & Hagg & _).
  destruct (joined_parts _ _ Hjoin) as (parts & Hparts & -> & Hempty & Hkept).
  rewrite Hdata in Hread, Hbuild, Hagg. rewrite <- Hf, <- Hn in Hagg.
  pose proof Hread as (_ & Hdet & (k & Hk & Hkws) & (b & Hb & Hbd) & (a & Ha & Han) & _).
  exists (contact_filename (rec_name r)), r, parts.
  split; [exact Hbuild |]. split; [exact Hread |]. split; [exact Hagg |].
  split; [by apply mapM_as_str_map |].
  split; [done |]. split; [done |].
  split; [| split; [| split; [| split; [| split; [| split]]]]].
  - intros H. rewrite (py_get_absent _ _ _ H) in Hdet. by injection Hdet.
  - intros H. rewrite (py_get_absent _ _ _ H) in Hk. injection Hk as <-.
    by injection Hkws.
  - intros H. rewrite (py_get_absent _ _ _ H) in Hb. injection Hb as <-. done.
  - intros H. rewrite (py_get_absent _ _ _ H) in Ha. injection Ha as <-. done.
  - apply Hkept; [| done]. apply list_elem_of_In. simpl. do 2 right. by left.
  - apply Hkept; [| done]. apply list_elem_of_In. simpl. do 3 right. by left.
  - apply Hkept; [| done]. apply list_elem_of_In. simpl. do 4 right. by left.
Qed.

Lemma empty_entries_omitted_witness :
  let d := [ ("full_name", JStr "Ann");
             ("extra_fields",
              JDict [ ("custom1", JDict [ ("value", JStr "x");
                                          ("display_name", JStr "") ]) ]) ] in
  ∃ filename r parts,
    build_contact_info sample_api steady "10" (JDict d) = Ok (filename, sections_of r)
    ∧ read_from sample_api "10" (JDict d) r
    ∧ aggregated sample_api steady (JDict d) (rec_forms r) (rec_notes r)
    ∧ List.filter truthy (sections_of r) = map JStr parts
    ∧ fst (_process_contact sample_api steady "10" ∅) = <[filename := join nl parts]> ∅
    ∧ ("" ∉ parts)
    ∧ (dict_lookup "details" d = None → rec_details r = JStr "")
    ∧ (dict_lookup "keywords" d = None → rec_keywords r = "")
    ∧ (dict_lookup "birthday" d = None → rec_birthday r = "")
    ∧ (dict_lookup "anniversary" d = None → rec_anniversary r = "")
    ∧ "Keywords: " +:+ rec_keywords r ∈ parts
    ∧ "Birthday: " +:+ rec_birthday r ∈ parts
    ∧ "Anniversary: " +:+ rec_anniversary r ∈ parts.
Proof.
  intros d.
  apply (empty_entries_omitted sample_api steady "10" ∅
           (fst (_process_contact sample_api steady "10" ∅)) d).
  - reflexivity.
  - discriminate.
  - vm_compute. reflexivity.
Defined.

(** *** The orchestrator *)

Lemma process_contact_atomic self tm contact_id :
  atomic (_process_contact self tm contact_id).
Proof.
  intros fs. unfold _process_contact.
  destruct (truthy _); simpl; [| by rewrite (left_id_L ∅ (∪))].
  destruct (build_contact_info _ _ _ _) as [[filename info]|e]; simpl;
    [| by rewrite (left_id_L ∅ (∪))].
  destruct (py_join nl _) as [text|e]; simpl;
    by rewrite insert_union_singleton_l, insert_empty.
Qed.

Lemma run_tasks_atomic tasks : ∀ fs,
  Forall atomic tasks →
  snd (run_tasks tasks fs) = map (λ task, snd (task ∅)) tasks
  ∧ dom fs ⊆ dom (fst (run_tasks tasks fs))
  ∧ ∀ task, task ∈ tasks → dom (fst (task ∅)) ⊆ dom (fst (run_tasks tasks fs)).
Proof.
  induction tasks as [|task tasks IH]; intros fs Hall; simpl.
  - split; [done |]. split; [done |]. intros task H. by apply not_elem_of_nil in H.
  - inversion Hall as [|? ? Htask Hrest]; subst.
    rewrite (Htask fs).
    destruct (IH (fst (task ∅) ∪ fs) Hrest) as (Hres & Hdom & Hevery).
    destruct (run_tasks tasks (fst (task ∅) ∪ fs)) as [fs2 rs]. simpl in *.
    split; [by rewrite Hres |]. rewrite dom_union in Hdom.
    split; [intros x Hx; apply Hdom, elem_of_union; by right |].
    intros task' [->|Hin]%elem_of_cons; [| by apply Hevery].
    intros x Hx. apply Hdom, elem_of_union. by left.
Qed.

Lemma fold_log_failure futures : ∀ log,
  fold_left log_failure futures log = log ++ omap failure_of futures.
Proof.
  induction futures as [|[u|e] futures IH]; intros log; simpl.
  - by rewrite app_nil_r.
  - apply IH.
  - rewrite IH. by rewrite <- app_assoc.
Qed.

Lemma omap_map {A B C} (g : B → option C) (f : A → B) (l : list A) :
  omap g (map f l) = omap (λ x, g (f x)) l.
Proof.
  induction l as [|x l IH]; simpl; [done |].
  destruct (g (f x)); [f_equal |]; exact IH.
Qed.

(** With a positive worker bound, every listed contact is run and the
    orchestrator returns normally. *)
Lemma process_all_contacts_runs_all self plan st ids :
  0 < max_workers self →
  extract_ids self = Ok ids →
  ∃ fs' errors,
    process_all_contacts self plan st
    = ({| dir := fs'; logged := logged st ++ errors |}, Ok tt)
    ∧ errors ≡ₚ failures self plan ids
    ∧ dom (dir st) ⊆ dom fs'
    ∧ ∀ id, id ∈ ids →
        dom (fst (_process_contact self (timing_of plan id) id ∅)) ⊆ dom fs'.
Proof.
  intros Hmw Hids. unfold process_all_contacts. rewrite Hids.
  unfold ThreadPoolExecutor. rewrite (proj2 (Z.leb_gt _ _) Hmw).
  set (tasks := map (λ id, _process_contact self (timing_of plan id) id) ids).
  assert (Hatomic : Forall atomic (as_completed (lock_order plan) tasks)).
  { rewrite as_completed_perm. apply Forall_forall. intros task Hin.
    apply list_elem_of_In, in_map_iff in Hin as (id & <- & _).
    apply process_contact_atomic. }
  destruct (run_tasks_atomic _ (dir st) Hatomic) as (Hres & Hdom & Hevery).
  destruct (run_tasks (as_completed (lock_order plan) tasks) (dir st)) as [fs' futures].
  simpl in *. exists fs', (omap failure_of (as_completed (contacts_done plan) futures)).
  split; [by rewrite fold_log_failure |]. split; [| split; [done |]].
  - subst futures. rewrite as_completed_perm.
    rewrite (Permutation_map _ (as_completed_perm (lock_order plan) _ tasks)).
    unfold failures, tasks. rewrite map_map.
    by rewrite omap_map.
  - intros id Hin. apply (Hevery (_process_contact self (timing_of plan id) id)).
    rewrite as_completed_perm. apply list_elem_of_In, in_map_iff.
    exists id. split; [done | by apply list_elem_of_In].
Qed.



(** *** The exit status *)

(** C9, the claim fails: a run whose listing fetch fails, a run whose
    listing is empty and a run that processes the four contacts of the
    sample (one of which fails) all end with exit status 0. *)
Lemma exit_status_is_the_same :
  serving [] listing_url = None
  ∧ snd (main (serving []) steady_plan fresh) = 0
  ∧ snd (main (serving [(listing_url, JList [])]) steady_plan fresh) = 0
  ∧ extract_ids sample_api = Ok ["7"; "8"; "9"; "10"]
  ∧ logged (fst (main (serving sample_pages) steady_plan fresh)) = [ValueError]
  ∧ snd (main (serving sample_pages) steady_plan fresh) = 0.
Proof. vm_compute. repeat split; reflexivity. Qed.

(** C9, amended. The exit status does not tell a failed or empty listing
    from a normal run: whenever [extract_ids] returns, be it with no id
    because the listing fetch failed or came back empty, or with the ids of
    the listing, [main] ends with exit status 0, whatever happens to the
    individual contacts. The status is 1 only when an exception escapes
    [extract_ids], on a malformed listing. *)
Theorem exit_status_ignores_listing_failure remote plan st :
  let api := {| session_get := remote; max_workers := 10 |} in
  (remote listing_url = None → snd (main remote plan st) = 0)
  ∧ (∀ ids, extract_ids api = Ok ids → snd (main remote plan st) = 0)
  ∧ (∀ e, extract_ids api = Raise e → snd (main remote plan st) = 1).
Proof.
  intros api.
  assert (Hok : ∀ ids, extract_ids api = Ok ids → snd (main remote plan st) = 0).
  { intros ids Hids. unfold main. fold api.
    destruct (process_all_contacts_runs_all api plan st ids eq_refl Hids)
      as (fs' & errors & -> & _). done. }
  split; [| split; [done |]].
  - intros Hfail. apply (Hok []). apply extract_ids_falsy.
    by rewrite (make_request_failed api _ Hfail).
  - intros e He. unfold main. fold api. unfold process_all_contacts. by rewrite He.
Qed.

Lemma exit_status_ignores_listing_failure_witness :
  snd (main (serving []) steady_plan fresh) = 0
  ∧ snd (main (serving sample_pages) steady_plan fresh) = 0.
Proof.
  split.
  - apply (proj1 (exit_status_ignores_listing_failure (serving []) steady_plan fresh)).
    reflexivity.
  - apply (proj1 (proj2 (exit_status_ignores_listing_failure
                          (serving sample_pages) steady_plan fresh))
             ["7"; "8"; "9"; "10"]).
    vm_compute. reflexivity.
Defined.

(** *** Falsy bodies and failed fetches *)

Section SameAnswers.
Variables a b : t.
Hypothesis Hsame : same_answers a b.

(** Every caller tests the body before it reads it, so only these two
    cases matter. *)
Lemma request_cases url :
  (truthy (_make_request a url) = false ∧ truthy (_make_request b url) = false)
  ∨ _make_request a url = _make_request b url.
Proof.
  destruct Hsame as [_ H]. destruct (H url) as [Ht Heq].
  destruct (truthy (_make_request a url)); [right; by apply Heq | left; by rewrite <- Ht].
Qed.

Ltac by_request_cases url :=
  destruct (request_cases url) as [[-> ->]| ->]; reflexivity.

Lemma extract_ids_same : extract_ids a = extract_ids b.
Proof. unfold extract_ids. by_request_cases (base_url +:+ "/v1/contacts"). Qed.

Lemma process_single_form_same form_id :
  _process_single_form a form_id = _process_single_form b form_id.
Proof.
  unfold _process_single_form. by_request_cases (base_url +:+ "/v1/forms/" +:+ form_id).
Qed.

Lemma process_single_note_same note_id :
  _process_single_note a note_id = _process_single_note b note_id.
Proof.
  unfold _process_single_note. by_request_cases (base_url +:+ "/v1/notes/" +:+ note_id).
Qed.

Lemma process_forms_same done ids : _process_forms a done ids = _process_forms b done ids.
Proof.
  unfold _process_forms. rewrite (proj1 Hsame).
  by rewrite (map_ext _ _ process_single_form_same).
Qed.

Lemma process_notes_same done ids : _process_notes a done ids = _process_notes b done ids.
Proof.
  unfold _process_notes. rewrite (proj1 Hsame).
  by rewrite (map_ext _ _ process_single_note_same).
Qed.

Lemma process_company_same data info :
  process_company a data info = process_company b data info.
Proof.
  unfold process_company.
  destruct (py_getitem data "companies") as [companies|]; simpl; [| done].
  destruct (py_index companies 0) as [company|]; simpl; [| done].
  destruct (py_getitem company "company") as [link|]; simpl; [| done].
  by_request_cases (base_url +:+ py_str link).
Qed.

Lemma process_forms_section_same done data info :
  process_forms_section a done data info = process_forms_section b done data info.
Proof.
  unfold process_forms_section.
  destruct (py_getitem data "forms") as [forms|]; simpl; [| done].
  destruct (py_iter forms) as [l|]; simpl; [| done].
  destruct (mapM _ l) as [ids|]; simpl; [| done].
  by rewrite process_forms_same.
Qed.

Lemma process_notes_section_same done data info :
  process_notes_section a done data info = process_notes_section b done data info.
Proof.
  unfold process_notes_section.
  destruct (py_getitem data "notes") as [notes|]; simpl; [| done].
  destruct (py_iter notes) as [l|]; simpl; [| done].
  destruct (mapM _ l) as [ids|]; simpl; [| done].
  by rewrite process_notes_same.
Qed.

Lemma build_contact_info_same tm contact_id data :
  build_contact_info a tm contact_id data = build_contact_info b tm contact_id data.
Proof.
  unfold build_contact_info.
  repeat match goal with
         | |- context [process_company a] => rewrite process_company_same
         | |- context [process_forms_section a] => rewrite process_forms_section_same
         | |- context [process_notes_section a] => rewrite process_notes_section_same
         | |- (?m ≫= _) = (?m ≫= _) => destruct m; simpl; [| reflexivity]
         end.
  reflexivity.
Qed.

Lemma process_contact_same tm contact_id fs :
  _process_contact a tm contact_id fs = _process_contact b tm contact_id fs.
Proof.
  unfold _process_contact.
  destruct (request_cases (base_url +:+ "/v1/contacts/" +:+ contact_id)) as [[-> ->]| ->];
    [reflexivity |].
  by rewrite build_contact_info_same.
Qed.
End SameAnswers.

Lemma falsy_same_as_failed remote mw url body :
  truthy body = false →
  same_answers {| session_get := respond remote url (Some body); max_workers := mw |}
               {| session_get := respond remote url None; max_workers := mw |}.
Proof.
  intros Hf. split; [done |]. intros u. unfold _make_request, respond. simpl.
  destruct (String.eqb u url); [| done]. rewrite Hf. done.
Qed.

(** C10. A fetch that succeeds with a falsy body (empty list, empty dict,
    null, ...) has the same effect as a fetch that fails, for every caller of
    [_make_request]: the results of [extract_ids], [_process_contact],
    [_process_single_form], [_process_single_note] and of the company block
    are the same in both cases. In particular, for the listing [extract_ids]
    returns no ids, for a contact [_process_contact] returns without touching
    the directory, and for a company the job line names "Unknown Company". *)
Theorem falsy_body_treated_as_failure
    (remote : string → option json) (mw : Z) (url : string) (body : json) :
  truthy body = false →
  let ok := {| session_get := respond remote url (Some body); max_workers := mw |} in
  let ko := {| session_get := respond remote url None; max_workers := mw |} in
  extract_ids ok = extract_ids ko
  ∧ (∀ tm contact_id fs,
       _process_contact ok tm contact_id fs = _process_contact ko tm contact_id fs)
  ∧ (∀ form_id, _process_single_form ok form_id = _process_single_form ko form_id)
  ∧ (∀ note_id, _process_single_note ok note_id = _process_single_note ko note_id)
  ∧ (∀ data info, process_company ok data info = process_company ko data info)
  ∧ (url = listing_url → extract_ids ok = Ok [])
  ∧ (∀ tm contact_id fs,
       url = contact_url contact_id → _process_contact ok tm contact_id fs = (fs, Ok tt))
  ∧ (∀ data info companies company link role,
       url = base_url +:+ py_str link →
       py_getitem data "companies" = Ok companies →
       py_index companies 0 = Ok company →
       py_getitem company "company" = Ok link →
       py_getitem company "role" = Ok role →
       process_company ok data info
       = Ok (info ++ [JStr ("Job: " +:+ py_str role +:+ " at Unknown Company")])).
Proof.
  intros Hf ok ko.
  pose proof (falsy_same_as_failed remote mw url body Hf) as Hsame. fold ok ko in Hsame.
  assert (Hreq : truthy (_make_request ok url) = false).
  { unfold _make_request, ok; simpl. by rewrite respond_same. }
  split; [by apply extract_ids_same |].
  split; [intros tm contact_id fs; by apply process_contact_same |].
  split; [intros form_id; by apply process_single_form_same |].
  split; [intros note_id; by apply process_single_note_same |].
  split; [intros data info; by apply process_company_same |].
  split; [intros ->; by apply extract_ids_falsy |].
  split; [intros tm contact_id fs ->; by apply process_contact_falsy |].
  intros data info companies company link role -> H1 H2 H3 H4.
  by eapply process_company_falsy.
Qed.

Lemma falsy_body_treated_as_failure_witness :
  truthy (JList []) = false
  ∧ extract_ids {| session_get := respond (serving sample_pages) listing_url (Some (JList []));
                   max_workers := 10 |}
    = extract_ids {| session_get := respond (serving sample_pages) listing_url None;
                     max_workers := 10 |}
  ∧ extract_ids {| session_get := respond (serving sample_pages) listing_url (Some (JList []));
                   max_workers := 10 |} = Ok [].
Proof.
  destruct (falsy_body_treated_as_failure (serving sample_pages) 10 listing_url (JList [])
              eq_refl) as (H1 & _ & _ & _ & _ & H2 & _).
  split; [reflexivity |]. split; [exact H1 | exact (H2 eq_refl)].
Defined.

(** ** Further properties *)

(** *** The listing *)

Lemma foldM_invariant {A B} (P : B → Prop) (f : B → A → result B) l : ∀ acc r,
  P acc → (∀ acc x acc', P acc → f acc x = Ok acc' → P acc') →
  foldM f acc l = Ok r → P r.
Proof.
  induction l as [|x l IH]; intros acc r Hacc Hstep; simpl.
  - by intros [= <-].
  - intros H. apply bind_Ok_inv in H as (acc' & Hx & H). eauto.
Qed.

Lemma take_digits_all_digits s : all_digits (take_digits s) = true.
Proof.
  induction s as [|c s IH]; simpl; [done |].
  destruct (is_digit c) eqn:E; simpl; [by rewrite E | done].
Qed.

Lemma match_contact_here_digits s ds :
  match_contact_here s = Some ds → ds ≠ "" ∧ all_digits ds = true.
Proof.
  unfold match_contact_here. destruct (String.prefix _ _); [| discriminate].
  pose proof (take_digits_all_digits (str_drop (String.length contacts_prefix) s)) as H.
  destruct (take_digits _); [discriminate |]. by intros [= <-].
Qed.

Lemma search_contact_digits s ds :
  search_contact s = Some ds → ds ≠ "" ∧ all_digits ds = true.
Proof.
  induction s as [|c s IH].
  - cbv. discriminate.
  - cbn [search_contact]. destruct (match_contact_here (String c s)) eqn:E; [| exact IH].
    intros [= <-]. by apply match_contact_here_digits in E.
Qed.

(** X1. Every id that [extract_ids] returns is non-empty and made only of
    characters that the [\d] of the pattern matches, whatever the listing
    holds. For the strings of this development, whose code points are below
    256, these characters are the digits 0 to 9. *)
Theorem extract_ids_are_numbers self ids :
  extract_ids self = Ok ids →
  Forall (λ id, id ≠ "" ∧ all_digits id = true) ids.
Proof.
  unfold extract_ids. destruct (truthy _); simpl; [| by intros [= <-]].
  intros H. apply bind_Ok_inv in H as (contacts & _ & H).
  revert H. apply foldM_invariant with (P := Forall (λ id, id ≠ "" ∧ all_digits id = true));
    [done |].
  intros acc contact acc' Hacc H.
  apply bind_Ok_inv in H as (burl & _ & H).
  apply bind_Ok_inv in H as (m & Hm & [= <-]).
  destruct m as [g|]; [| done]. apply Forall_app. split; [done |].
  destruct burl; try discriminate. injection Hm as Hm.
  apply search_contact_digits in Hm. constructor; [exact Hm | constructor].
Qed.

Lemma extract_ids_are_numbers_witness :
  Forall (λ id, id ≠ "" ∧ all_digits id = true) ["7"; "8"; "9"; "10"].
Proof.
  apply (extract_ids_are_numbers sample_api). vm_compute. reflexivity.
Defined.

Lemma take_digits_id ds : all_digits ds = true → take_digits ds = ds.
Proof.
  induction ds as [|c ds IH]; simpl; [done |].
  destruct (is_digit c); simpl; [| discriminate]. intros H. by rewrite IH.
Qed.

Lemma prefix_append p s : String.prefix p (p +:+ s) = true.
Proof.
  induction p as [|c p IH]; simpl; [by destruct s |].
  by destruct (ascii_dec c c).
Qed.

Lemma match_contact_here_path id :
  id ≠ "" → all_digits id = true →
  match_contact_here (contacts_prefix +:+ id) = Some id.
Proof.
  intros Hne Hd. unfold match_contact_here.
  rewrite prefix_append.
  change (str_drop (String.length contacts_prefix) (contacts_prefix +:+ id)) with id.
  rewrite (take_digits_id _ Hd). by destruct id.
Qed.

Lemma search_contact_path id :
  id ≠ "" → all_digits id = true →
  search_contact (contacts_prefix +:+ id) = Some id.
Proof.
  intros Hne Hd.
  change (contacts_prefix +:+ id) with (String "/" ("v1/contacts/" +:+ id)).
  cbn [search_contact].
  change (String "/" ("v1/contacts/" +:+ id)) with (contacts_prefix +:+ id).
  by rewrite match_contact_here_path.
Qed.

Lemma search_contact_url id :
  id ≠ "" → all_digits id = true → search_contact (contact_url id) = Some id.
Proof.
  intros Hne Hd. unfold contact_url, base_url.
  change ("https://api.marketcircle.net" +:+ "/v1/contacts/" +:+ id)
    with ("https://api.marketcircle.net" +:+ (contacts_prefix +:+ id)).
  pose proof (search_contact_path id Hne Hd) as H.
  destruct (contacts_prefix +:+ id) as [|c rest] eqn:E; [done |].
  cbn. exact H.
Qed.

Lemma foldM_extract links : ∀ entries acc,
  Forall2 (λ entry link, py_get entry "self" (JStr "") = Ok (JStr link)) entries links →
  foldM (λ ids contact,
           burl ← py_get contact "self" (JStr "");
           m ← re_search_contact burl;
           Ok (match m with Some g => ids ++ [g] | None => ids end))
        acc entries
  = Ok (acc ++ omap search_contact links).
Proof.
  induction links as [|link links IH]; intros entries acc H; inversion H as [|entry ? rest ? Hentry Hrest]; subst.
  - simpl. by rewrite app_nil_r.
  - cbn [foldM]. rewrite Hentry. cbn [mbind result_bind re_search_contact].
    rewrite (IH _ _ Hrest). cbn [omap list_omap].
    destruct (search_contact link); [by rewrite <- app_assoc | done].
Qed.

Lemma extract_ids_of_links self entries links :
  session_get self listing_url = Some (JList entries) →
  Forall2 (λ entry link, py_get entry "self" (JStr "") = Ok (JStr link)) entries links →
  extract_ids self = Ok (omap search_contact links).
Proof.
  intros Hget Hlinks. unfold extract_ids. fold listing_url.
  rewrite (make_request_body _ _ _ Hget).
  destruct entries as [|entry entries].
  - inversion Hlinks; subst. reflexivity.
  - cbn [truthy negb bool_decide]. change (py_iter (JList (entry :: entries)))
      with (Ok (entry :: entries) : result (list json)).
    simpl negb. cbn [mbind result_bind].
    by rewrite (foldM_extract _ _ _ Hlinks).
Qed.

Lemma omap_length_le {A B} (f : A → option B) (l : list A) :
  (length (omap f l) ≤ length l)%nat.
Proof.
  induction l as [|x l IH]; [done |]. cbn [omap list_omap].
  change (list_omap A B f l) with (omap f l). destruct (f x); simpl; lia.
Qed.

(** X2. When every entry of the listing is an object whose self link is a
    string (or is absent), [extract_ids] does not raise; it returns, in the
    order of the listing, the id of every entry whose link holds
    [/v1/contacts/] followed by digits, and silently drops the others. *)
Theorem extract_ids_keeps_order self entries links :
  session_get self listing_url = Some (JList entries) →
  Forall2 (λ entry link, py_get entry "self" (JStr "") = Ok (JStr link)) entries links →
  extract_ids self = Ok (omap search_contact links)
  ∧ (length (omap search_contact links) ≤ length entries)%nat.
Proof.
  intros Hget Hlinks. split; [by eapply extract_ids_of_links |].
  rewrite (Forall2_length _ _ _ Hlinks). apply omap_length_le.
Qed.

Lemma extract_ids_keeps_order_witness :
  extract_ids sample_api = Ok (omap search_contact
    ["/v1/contacts/7"; "/v1/contacts/8"; "/v1/contacts/9"; "/v1/contacts/10";
     "/v1/companies/3"])
  ∧ (length (omap search_contact
       ["/v1/contacts/7"; "/v1/contacts/8"; "/v1/contacts/9"; "/v1/contacts/10";
        "/v1/companies/3"]) ≤ 5)%nat.
Proof.
  apply (extract_ids_keeps_order sample_api
           (map listed ["/v1/contacts/7"; "/v1/contacts/8"; "/v1/contacts/9";
                        "/v1/contacts/10"; "/v1/companies/3"])).
  - reflexivity.
  - repeat constructor.
Defined.

Lemma omap_map_Some {A B} (f : A → B) (g : B → option A) (l : list A) :
  Forall (λ x, g (f x) = Some x) l → omap g (map f l) = l.
Proof.
  induction 1 as [|x l Hx _ IH]; [done |].
  cbn [map omap list_omap]. rewrite Hx. f_equal. exact IH.
Qed.

Lemma listed_links (path : string → string) ids :
  Forall2 (λ entry link, py_get entry "self" (JStr "") = Ok (JStr link))
          (map (λ id, listed (path id)) ids) (map path ids).
Proof. induction ids; constructor; done. Qed.

(** X3. Listing and fetching agree on the ids: a listing whose entries are
    the self links of contacts, given as the path [/v1/contacts/<id>] or as
    the URL that [_process_contact] fetches for [<id>], is read back as
    exactly these ids, in order, when each id is a non-empty string of
    digits. *)
Theorem extract_ids_round_trip self ids :
  Forall (λ id, id ≠ "" ∧ all_digits id = true) ids →
  (session_get self listing_url
   = Some (JList (map (λ id, listed (contacts_prefix +:+ id)) ids))
   ∨ session_get self listing_url = Some (JList (map (λ id, listed (contact_url id)) ids))) →
  extract_ids self = Ok ids.
Proof.
  intros Hids [Hget|Hget].
  - rewrite (extract_ids_of_links self _ _ Hget (listed_links _ ids)).
    f_equal. apply omap_map_Some. eapply Forall_impl; [exact Hids |].
    intros id [Hne Hd]. by apply search_contact_path.
  - rewrite (extract_ids_of_links self _ _ Hget (listed_links _ ids)).
    f_equal. apply omap_map_Some. eapply Forall_impl; [exact Hids |].
    intros id [Hne Hd]. by apply search_contact_url.
Qed.

Lemma extract_ids_round_trip_witness :
  extract_ids {| session_get := serving [(listing_url,
                   JList (map (λ id, listed (contact_url id)) ["12"; "5"; "12"]))];
                 max_workers := 10 |}
  = Ok ["12"; "5"; "12"].
Proof.
  apply extract_ids_round_trip.
  - repeat constructor; discriminate.
  - right. reflexivity.
Defined.

(** X4. A truthy listing body that is an object rather than a list (an
    error object, a wrapper around the list) makes [extract_ids] raise
    [AttributeError]: the loop ranges over its keys, which are strings and
    have no [get]. The exception escapes the orchestrator with the state
    untouched, and [main] ends with exit status 1. *)
Theorem object_listing_raises remote plan st d :
  d ≠ [] →
  remote listing_url = Some (JDict d) →
  let api := {| session_get := remote; max_workers := 10 |} in
  extract_ids api = Raise AttributeError
  ∧ process_all_contacts api plan st = (st, Raise AttributeError)
  ∧ main remote plan st = (st, 1).
Proof.
  intros Hd Hget api.
  assert (H : extract_ids api = Raise AttributeError).
  { unfold extract_ids. fold listing_url.
    rewrite (make_request_body api _ _ Hget). by destruct d as [|[k v] d]. }
  split; [done |].
  assert (H2 : process_all_contacts api plan st = (st, Raise AttributeError)).
  { unfold process_all_contacts. by rewrite H. }
  split; [done |]. unfold main. fold api. by rewrite H2.
Qed.

Lemma object_listing_raises_witness :
  main (serving [(listing_url, JDict [("error", JStr "rate limited")])]) steady_plan fresh
  = (fresh, 1).
Proof.
  apply (object_listing_raises (serving [(listing_url, JDict [("error", JStr "rate limited")])])
           steady_plan fresh [("error", JStr "rate limited")]).
  - discriminate.
  - reflexivity.
Defined.

(** *** File names *)

Lemma has_char_remove c drop s : c ∈ drop → has_char c (str_remove drop s) = false.
Proof.
  intros Hc. induction s as [|c' s IH]; simpl; [done |].
  case_bool_decide as Hin; [done |]. simpl. rewrite IH, orb_false_r.
  apply Ascii.eqb_neq. by intros ->.
Qed.

Lemma has_char_take c n s : has_char c s = false → has_char c (str_take n s) = false.
Proof.
  revert n. induction s as [|c' s IH]; intros [|n]; simpl; try done.
  intros [H1 H2]%orb_false_elim. by rewrite H1, IH.
Qed.

Lemma has_char_lstrip c s : has_char c s = false → has_char c (lstrip s) = false.
Proof.
  induction s as [|c' s IH]; simpl; [done |].
  intros H. destruct (isspace c'); [| done].
  apply orb_false_elim in H as [_ H]. by apply IH.
Qed.

Lemma has_char_rstrip c s : has_char c s = false → has_char c (rstrip s) = false.
Proof.
  induction s as [|c' s IH]; simpl; [done |].
  intros [H1 H2]%orb_false_elim. specialize (IH H2).
  destruct (rstrip s); [destruct (isspace c'); simpl; by rewrite ?H1 |].
  simpl in *. by rewrite H1, IH.
Qed.

Lemma length_take n s : (String.length (str_take n s) ≤ n)%nat.
Proof.
  revert n. induction s as [|c s IH]; intros [|n]; simpl; try lia.
  specialize (IH n). lia.
Qed.

Lemma length_lstrip s : (String.length (lstrip s) ≤ String.length s)%nat.
Proof.
  induction s as [|c s IH]; simpl; [done |]. destruct (isspace c); simpl; lia.
Qed.

Lemma length_rstrip s : (String.length (rstrip s) ≤ String.length s)%nat.
Proof.
  induction s as [|c s IH]; simpl; [done |].
  destruct (rstrip s); [destruct (isspace c) |]; simpl in *; lia.
Qed.

Lemma contact_name_no_separator contact_id data name :
  contact_name contact_id data = Ok name →
  has_char slash name = false ∧ has_char backslash name = false.
Proof.
  unfold contact_name. intros H. apply bind_Ok_inv in H as (raw & _ & H).
  destruct raw; try discriminate. injection H as <-.
  split; apply has_char_remove; set_solver.
Qed.

Lemma stem_is_safe name :
  has_char slash name = false → has_char backslash name = false →
  (String.length (strip (str_take 20 name)) ≤ 20)%nat
  ∧ has_char slash (strip (str_take 20 name)) = false
  ∧ has_char backslash (strip (str_take 20 name)) = false.
Proof.
  intros H1 H2. unfold strip. split; [| split].
  - pose proof (length_rstrip (lstrip (str_take 20 name))).
    pose proof (length_lstrip (str_take 20 name)).
    pose proof (length_take 20 name). lia.
  - by apply has_char_rstrip, has_char_lstrip, has_char_take.
  - by apply has_char_rstrip, has_char_lstrip, has_char_take.
Qed.

(** X5. [_process_contact] touches at most one file, whatever the contact
    record holds, and its name is safe: the stem before [.txt] has at most
    20 characters and holds neither a slash nor a backslash, so the file
    lands in the working directory. *)
Theorem written_file_name_is_safe self tm contact_id fs :
  fst (_process_contact self tm contact_id fs) = fs
  ∨ ∃ stem text,
      fst (_process_contact self tm contact_id fs) = <[stem +:+ ".txt" := text]> fs
      ∧ (String.length stem ≤ 20)%nat
      ∧ has_char slash stem = false
      ∧ has_char backslash stem = false.
Proof.
  unfold _process_contact. destruct (truthy _); simpl; [| by left].
  destruct (build_contact_info _ _ _ _) as [[filename info]|e] eqn:Hbuild; [| by left].
  right.
  destruct (build_contact_info_layout _ _ tm _ _ _ _ Hbuild)
    as (r & _ & _ & _ & _ & _ & -> & (Hname & _) & _).
  apply contact_name_no_separator in Hname as [H1 H2].
  destruct (stem_is_safe _ H1 H2) as (Hlen & Hs & Hb).
  exists (strip (str_take 20 (rec_name r))).
  destruct (py_join nl _) as [text|e]; simpl; eauto.
Qed.

Lemma mapM_as_str_Raise (l : list json) e : mapM as_str l = Raise e → e = TypeError.
Proof.
  induction l as [|v l IH]; simpl; [discriminate |].
  destruct (as_str v) eqn:Hv; simpl.
  - destruct (mapM as_str l); simpl; [discriminate |]. intros [= <-]. by apply IH.
  - intros [= <-]. destruct v; simpl in Hv; congruence.
Qed.

Lemma py_join_Raise sep (l : list json) e : py_join sep l = Raise e → e = TypeError.
Proof.
  unfold py_join. destruct (mapM as_str l) eqn:H; simpl; [discriminate |].
  intros [= <-]. by apply mapM_as_str_Raise in H.
Qed.

(** X6. A contact whose [details] is truthy but not a string (a number, a
    list, an object) and whose record is sound otherwise ends with
    [TypeError] raised by the join, and leaves an empty file behind: the
    file is opened for writing before the text is built. *)
Theorem non_string_details_leave_empty_file self tm contact_id fs d v filename info :
  session_get self (contact_url contact_id) = Some (JDict d) →
  dict_lookup "details" d = Some v →
  truthy v = true →
  (∀ s, v ≠ JStr s) →
  build_contact_info self tm contact_id (JDict d) = Ok (filename, info) →
  _process_contact self tm contact_id fs = (<[filename := ""]> fs, Raise TypeError).
Proof.
  intros Hget Hv Ht Hstr Hbuild.
  unfold _process_contact. fold (contact_url contact_id).
  rewrite (make_request_body _ _ _ Hget).
  assert (Hd : truthy (JDict d) = true) by by destruct d.
  rewrite Hd, Hbuild. simpl.
  destruct (py_join nl (List.filter truthy info)) as [text|e] eqn:Hjoin.
  - exfalso.
    destruct (build_contact_info_layout _ _ tm _ _ _ _ Hbuild)
      as (r & _ & _ & _ & _ & -> & _ & (_ & Hdet & _) & _).
    simpl in Hdet. rewrite Hv in Hdet. injection Hdet as Hdet.
    assert (Hj : joinable (rec_details r)).
    { apply sections_joinable, py_join_Ok_iff. eauto. }
    rewrite <- Hdet in Hj. destruct (Hj Ht) as [s Hs]. by apply (Hstr s).
  - by rewrite (py_join_Raise _ _ _ Hjoin).
Qed.

Lemma non_string_details_leave_empty_file_witness :
  _process_contact
    {| session_get := serving [(contact_url "4",
                                JDict [("full_name", JStr "Cy"); ("details", JInt 5)])];
       max_workers := 10 |} steady "4" ∅
  = (<[ "Cy.txt" := "" ]> ∅, Raise TypeError).
Proof.
  apply (non_string_details_leave_empty_file _ steady "4" ∅
           [("full_name", JStr "Cy"); ("details", JInt 5)] (JInt 5) "Cy.txt"
           [JStr "Cy"; JInt 5; JStr "Keywords: "; JStr "Birthday: "; JStr "Anniversary: ";
            JStr "No location found"; JStr "No job information found";
            JStr "No forms found"; JStr "No notes found"]).
  - reflexivity.
  - reflexivity.
  - reflexivity.
  - discriminate.
  - vm_compute. reflexivity.
Defined.

(** X7. Two contacts whose names agree on their first 20 characters share a
    file: when both are written, one after the other, the directory is what
    the second contact alone would have left, and the document of the first
    is gone. *)
Theorem same_stem_overwrites self tm1 tm2 id1 id2 fs fs1 fs2 name1 name2 :
  truthy (_make_request self (contact_url id1)) = true →
  truthy (_make_request self (contact_url id2)) = true →
  contact_name id1 (_make_request self (contact_url id1)) = Ok name1 →
  contact_name id2 (_make_request self (contact_url id2)) = Ok name2 →
  str_take 20 name1 = str_take 20 name2 →
  _process_contact self tm1 id1 fs = (fs1, Ok tt) →
  _process_contact self tm2 id2 fs1 = (fs2, Ok tt) →
  fs2 = fst (_process_contact self tm2 id2 fs)
  ∧ ∃ text2, fs2 = <[contact_filename name2 := text2]> fs.
Proof.
  intros Ht1 Ht2 Hn1 Hn2 Hstem Hrun1 Hrun2.
  destruct (process_contact_written _ _ _ _ _ Ht1 Hrun1)
    as (fn1 & info1 & text1 & Hb1 & Hj1 & ->).
  destruct (process_contact_written _ _ _ _ _ Ht2 Hrun2)
    as (fn2 & info2 & text2 & Hb2 & Hj2 & ->).
  rewrite (process_contact_writes _ _ _ fs _ _ _ Ht2 Hb2 Hj2). simpl.
  destruct (build_contact_info_layout _ _ tm1 _ _ _ _ Hb1)
    as (r1 & _ & _ & _ & _ & _ & -> & (Hr1 & _) & _).
  destruct (build_contact_info_layout _ _ tm2 _ _ _ _ Hb2)
    as (r2 & _ & _ & _ & _ & _ & -> & (Hr2 & _) & _).
  rewrite Hn1 in Hr1. rewrite Hn2 in Hr2. injection Hr1 as <-. injection Hr2 as <-.
  assert (Hfn : contact_filename name1 = contact_filename name2).
  { unfold contact_filename. by rewrite Hstem. }
  rewrite Hfn, insert_insert_eq. split; [done |]. by exists text2.
Qed.

Lemma same_stem_overwrites_witness :
  let api := {| session_get := serving
                  [ (contact_url "1", JDict [("full_name", JStr "Maria Anna Hofstetter-Lang")]);
                    (contact_url "2", JDict [("full_name", JStr "Maria Anna Hofstetter")]) ];
                max_workers := 10 |} in
  fst (_process_contact api steady "2" (fst (_process_contact api steady "1" ∅)))
  = fst (_process_contact api steady "2" ∅).
Proof.
  intros api.
  apply (same_stem_overwrites api steady steady "1" "2" ∅
           (fst (_process_contact api steady "1" ∅))
           (fst (_process_contact api steady "2" (fst (_process_contact api steady "1" ∅))))
           "Maria Anna Hofstetter-Lang" "Maria Anna Hofstetter");
    vm_compute; reflexivity.
Defined.

(** *** The directory after a run *)

Lemma run_tasks_fold tasks : ∀ fs,
  Forall atomic tasks →
  fst (run_tasks tasks fs) = fold_left (λ acc task, fst (task ∅) ∪ acc) tasks fs.
Proof.
  induction tasks as [|task tasks IH]; intros fs Hall; simpl; [done |].
  inversion Hall as [|? ? Htask Hrest]; subst. rewrite (Htask fs).
  specialize (IH (fst (task ∅) ∪ fs) Hrest).
  destruct (run_tasks tasks (fst (task ∅) ∪ fs)) as [fs2 rs]. exact IH.
Qed.

(** The directory that [process_all_contacts] leaves: the writes of the
    contacts, applied in the order in which they take the lock. *)
Lemma process_all_contacts_dir self plan st ids :
  0 < max_workers self →
  extract_ids self = Ok ids →
  ∃ order, order ≡ₚ ids
    ∧ dir (fst (process_all_contacts self plan st))
      = fold_left (λ acc id, written_by self plan id ∪ acc) order (dir st).
Proof.
  intros Hmw Hids. unfold process_all_contacts. rewrite Hids.
  unfold ThreadPoolExecutor. rewrite (proj2 (Z.leb_gt _ _) Hmw).
  set (run := λ id, _process_contact self (timing_of plan id) id).
  destruct (Permutation_map_inv run _ (as_completed_perm (lock_order plan) _ (map run ids)))
    as (order & Horder & HP).
  exists order. split; [by symmetry |].
  assert (Hatomic : Forall atomic (map run order)).
  { apply Forall_forall. intros task Hin.
    apply list_elem_of_In, in_map_iff in Hin as (id & <- & _).
    exact (process_contact_atomic self (timing_of plan id) id). }
  pose proof (run_tasks_fold _ (dir st) Hatomic) as Hfold.
  rewrite <- Horder in Hfold.
  destruct (run_tasks (as_completed (lock_order plan) (map run ids)) (dir st)) as [fs' futures].
  simpl in *. rewrite Hfold, Horder. clear. generalize (dir st) as fs.
  induction order as [|id order IH]; intros fs; simpl; [done |]. apply IH.
Qed.

Lemma dom_fold_writes (w : string → gmap string string) order : ∀ fs k,
  k ∈ dom (fold_left (λ acc id, w id ∪ acc) order fs)
  ↔ k ∈ dom fs ∨ ∃ id, id ∈ order ∧ k ∈ dom (w id).
Proof.
  induction order as [|id order IH]; intros fs k; simpl.
  - split; [by left | intros [H|(id & H & _)]; [done | by apply not_elem_of_nil in H]].
  - rewrite IH, dom_union, elem_of_union. split.
    + intros [[H|H]|(id' & Hin & H)].
      * right. exists id. split; [by left | done].
      * by left.
      * right. exists id'. split; [by right | done].
    + intros [H|(id' & [->|Hin]%elem_of_cons & H)].
      * left. by right.
      * left. by left.
      * right. by exists id'.
Qed.

Lemma size_fold_writes (w : string → gmap string string) order : ∀ fs,
  (∀ id, size (w id) ≤ 1)%nat →
  (size (fold_left (λ acc id, w id ∪ acc) order fs) ≤ size fs + length order)%nat.
Proof.
  induction order as [|id order IH]; intros fs Hw; simpl; [lia |].
  specialize (IH (w id ∪ fs) Hw).
  assert (size (w id ∪ fs) ≤ size (w id) + size fs)%nat.
  { rewrite <- !size_dom, dom_union_L, size_union_alt.
    assert (size (dom fs ∖ dom (w id)) ≤ size (dom fs))%nat; [| lia].
    apply subseteq_size. intros k Hk. by apply elem_of_difference in Hk as [Hk _]. }
  specialize (Hw id). lia.
Qed.

Lemma written_at_most_one self tm contact_id :
  (size (fst (_process_contact self tm contact_id ∅)) ≤ 1)%nat.
Proof.
  unfold _process_contact. destruct (truthy _); simpl; [| by rewrite map_size_empty; lia].
  destruct (build_contact_info _ _ _ _) as [[filename info]|e]; simpl;
    [| rewrite map_size_empty; lia].
  destruct (py_join nl _); simpl; by rewrite map_size_insert_None, map_size_empty.
Qed.

(** X8. After a run the directory holds the files it held before and the
    files of the listed contacts, nothing else, whatever the order in which
    the contacts ran; the run adds at most one file per listed contact. *)
Theorem run_writes_the_contacts_files self plan st ids :
  0 < max_workers self →
  extract_ids self = Ok ids →
  let fs' := dir (fst (process_all_contacts self plan st)) in
  (∀ name, name ∈ dom fs'
           ↔ name ∈ dom (dir st) ∨ ∃ id, id ∈ ids ∧ name ∈ dom (written_by self plan id))
  ∧ (size fs' ≤ size (dir st) + length ids)%nat.
Proof.
  intros Hmw Hids fs'.
  destruct (process_all_contacts_dir self plan st ids Hmw Hids) as (order & HP & Hdir).
  subst fs'. rewrite Hdir. split.
  - intros name. rewrite dom_fold_writes. split.
    + intros [H|(id & Hin & H)]; [by left |]. right. exists id. by rewrite <- HP.
    + intros [H|(id & Hin & H)]; [by left |]. right. exists id. by rewrite HP.
  - rewrite <- (Permutation_length HP). apply size_fold_writes.
    intros id. apply written_at_most_one.
Qed.

Lemma run_writes_the_contacts_files_witness :
  (size (dir (fst (process_all_contacts sample_api steady_plan fresh)))
   ≤ size (dir fresh) + length ["7"; "8"; "9"; "10"])%nat.
Proof.
  apply (run_writes_the_contacts_files sample_api steady_plan fresh ["7"; "8"; "9"; "10"]).
  - reflexivity.
  - vm_compute. reflexivity.
Defined.

Lemma fold_writes_perm (w : string → gmap string string) l1 l2 :
  l1 ≡ₚ l2 → ∀ fs,
  NoDup l1 →
  (∀ a b, a ∈ l1 → b ∈ l1 → a ≠ b → w a ##ₘ w b) →
  fold_left (λ acc id, w id ∪ acc) l1 fs = fold_left (λ acc id, w id ∪ acc) l2 fs.
Proof.
  induction 1 as [|x l l' HP IH|x y l|l l' l'' HP1 IH1 HP2 IH2]; intros fs Hnd Hdis; simpl.
  - done.
  - apply IH.
    + by apply NoDup_cons in Hnd as [_ Hnd].
    + intros a b Ha Hb. apply Hdis; by right.
  - f_equal. apply NoDup_cons in Hnd as [Hy _].
    assert (Hxy : w x ##ₘ w y).
    { apply Hdis; [right; by left | by left |]. intros ->. apply Hy. by left. }
    by rewrite !(assoc_L (∪)), (map_union_comm (w x) (w y)).
  - rewrite IH1 by done. apply IH2.
    + by rewrite <- HP1.
    + intros a b Ha Hb. apply Hdis; by rewrite HP1.
Qed.

Lemma failures_same_timing self plan1 plan2 ids :
  (∀ id, timing_of plan1 id = timing_of plan2 id) →
  failures self plan1 ids = failures self plan2 ids.
Proof.
  intros Htm. unfold failures. induction ids as [|id ids IH]; [done |].
  cbn [omap list_omap]. rewrite (Htm id). destruct (failure_of _); [f_equal |]; exact IH.
Qed.

Lemma fold_writes_ext (w1 w2 : string → gmap string string) l : ∀ fs,
  (∀ id, w1 id = w2 id) →
  fold_left (λ acc id, w1 id ∪ acc) l fs = fold_left (λ acc id, w2 id ∪ acc) l fs.
Proof.
  induction l as [|id l IH]; intros fs Hw; simpl; [done |]. rewrite (Hw id). by apply IH.
Qed.

(** X9. When no contact is listed twice and no two listed contacts write the
    same file, the outcome of a run does not depend on scheduling: two runs
    with the same completion orders inside the contacts, but any order of
    the contacts themselves, leave the same directory and log the same
    exceptions, up to the order of the log. *)
Theorem run_is_deterministic_without_collisions self plan1 plan2 st ids :
  0 < max_workers self →
  extract_ids self = Ok ids →
  (∀ id, timing_of plan1 id = timing_of plan2 id) →
  no_collision self plan1 ids →
  dir (fst (process_all_contacts self plan1 st))
  = dir (fst (process_all_contacts self plan2 st))
  ∧ logged (fst (process_all_contacts self plan1 st))
    ≡ₚ logged (fst (process_all_contacts self plan2 st)).
Proof.
  intros Hmw Hids Htm [Hnd Hdis]. split.
  - destruct (process_all_contacts_dir self plan1 st ids Hmw Hids) as (o1 & HP1 & ->).
    destruct (process_all_contacts_dir self plan2 st ids Hmw Hids) as (o2 & HP2 & ->).
    assert (Hw : ∀ id, written_by self plan2 id = written_by self plan1 id).
    { intros id. unfold written_by. by rewrite Htm. }
    rewrite (fold_writes_ext _ _ o2 (dir st) Hw).
    apply fold_writes_perm.
    + by rewrite HP1, HP2.
    + by rewrite HP1.
    + intros a b Ha Hb. apply Hdis; by rewrite <- HP1.
  - destruct (process_all_contacts_runs_all self plan1 st ids Hmw Hids)
      as (fs1 & e1 & -> & He1 & _).
    destruct (process_all_contacts_runs_all self plan2 st ids Hmw Hids)
      as (fs2 & e2 & -> & He2 & _).
    simpl. rewrite He1, He2. by rewrite (failures_same_timing _ _ _ _ Htm).
Qed.

Lemma run_is_deterministic_without_collisions_witness :
  dir (fst (process_all_contacts sample_api steady_plan fresh))
  = dir (fst (process_all_contacts sample_api reversed_plan fresh))
  ∧ logged (fst (process_all_contacts sample_api steady_plan fresh))
    ≡ₚ logged (fst (process_all_contacts sample_api reversed_plan fresh)).
Proof.
  apply (run_is_deterministic_without_collisions sample_api steady_plan reversed_plan fresh
           ["7"; "8"; "9"; "10"]).
  - reflexivity.
  - vm_compute. reflexivity.
  - reflexivity.
  - split.
    + compute_done.
    + intros a b Ha Hb Hab. apply map_disjoint_dom.
      repeat (apply elem_of_cons in Ha as [->|Ha]);
        [ | | | | by apply not_elem_of_nil in Ha];
        (repeat (apply elem_of_cons in Hb as [->|Hb]);
           [ | | | | by apply not_elem_of_nil in Hb]);
        try done; compute_done.
Defined.

(** *** Worker bounds and empty batches *)

Lemma pool_refused n : n ≤ 0 → ThreadPoolExecutor n = Raise ValueError.
Proof. intros H. unfold ThreadPoolExecutor. by rewrite (proj2 (Z.leb_le _ _) H). Qed.

(** X10. A client built with a worker bound that is not positive exports
    nothing: both aggregators raise [ValueError] for every list of ids, and
    the orchestrator ends with an exception (the one of [extract_ids], or
    [ValueError] from its own pool, even when the listing is empty) and
    leaves the directory and the log as they were. *)
Theorem no_workers_no_export self :
  max_workers self ≤ 0 →
  (∀ done ids, _process_forms self done ids = Raise ValueError
               ∧ _process_notes self done ids = Raise ValueError)
  ∧ (∀ plan st ids, extract_ids self = Ok ids →
       process_all_contacts self plan st = (st, Raise ValueError))
  ∧ (∀ plan st, ∃ e, process_all_contacts self plan st = (st, Raise e)).
Proof.
  intros Hmw. split; [| split].
  - intros done ids. unfold _process_forms, _process_notes.
    rewrite !pool_refused by lia. done.
  - intros plan st ids Hids. unfold process_all_contacts.
    by rewrite Hids, pool_refused.
  - intros plan st. unfold process_all_contacts.
    destruct (extract_ids self); [rewrite pool_refused by done |]; eauto.
Qed.

Lemma no_workers_no_export_witness :
  process_all_contacts {| session_get := serving sample_pages; max_workers := 0 |}
    steady_plan fresh
  = (fresh, Raise ValueError).
Proof.
  apply (proj1 (proj2 (no_workers_no_export
                         {| session_get := serving sample_pages; max_workers := 0 |}
                         ltac:(simpl; lia)))
           steady_plan fresh ["7"; "8"; "9"; "10"]).
  vm_compute. reflexivity.
Defined.

(** X11. When the listing fetch fails or brings a falsy body, a client with
    a positive worker bound returns normally without writing or logging
    anything: the state is exactly what it was. *)
Theorem empty_batch_changes_nothing self plan st :
  0 < max_workers self →
  truthy (_make_request self listing_url) = false →
  process_all_contacts self plan st = (st, Ok tt).
Proof.
  intros Hmw Hf. unfold process_all_contacts.
  rewrite (extract_ids_falsy _ Hf).
  unfold ThreadPoolExecutor. rewrite (proj2 (Z.leb_gt _ _) Hmw).
  cbn [map].
  pose proof (as_completed_perm (lock_order plan) _ (@nil (files → files * result unit))) as H1.
  apply Permutation_nil_r in H1. rewrite H1. cbn [run_tasks].
  pose proof (as_completed_perm (contacts_done plan) _ (@nil (result unit))) as H2.
  apply Permutation_nil_r in H2. rewrite H2. by destruct st.
Qed.

Lemma empty_batch_changes_nothing_witness :
  process_all_contacts {| session_get := serving []; max_workers := 10 |} reversed_plan fresh
  = (fresh, Ok tt).
Proof.
  apply (empty_batch_changes_nothing {| session_get := serving []; max_workers := 10 |}
           reversed_plan fresh); reflexivity.
Defined.

(** *** One task among many *)

Lemma foldM_collect_not_Ok futures acc data (e : exn) :
  Raise e ∈ futures → foldM collect acc futures ≠ Ok data.
Proof.
  intros Hin H. apply foldM_collect_inv in H as [results ->].
  apply list_elem_of_In, in_map_iff in Hin as (r & Hr & _). discriminate.
Qed.

Lemma aggregate_raises self done process_one ids id (e : exn) :
  id ∈ ids → process_one id = Raise e →
  ∃ e', aggregate self done process_one ids = Raise e'.
Proof.
  intros Hin He. destruct (aggregate self done process_one ids) as [text|e'] eqn:H; [| eauto].
  exfalso. unfold aggregate in H.
  destruct (ThreadPoolExecutor _); simpl in H; [| discriminate].
  apply bind_Ok_inv in H as (data & Hdata & _).
  apply (foldM_collect_not_Ok _ _ _ e) in Hdata; [done |].
  rewrite as_completed_perm, <- He.
  apply list_elem_of_In, in_map, list_elem_of_In, Hin.
Qed.

(** X12. A form or a note whose processing raises (its body is truthy but
    not an object, for instance) takes the whole contact with it: for every
    completion order the aggregator ends with an exception, which is not a
    [KeyError], so the forms or notes block of [_process_contact] does not
    catch it. *)
Theorem raising_task_aborts_aggregate self done ids id e :
  id ∈ ids →
  (_process_single_form self id = Raise e →
   ∃ e', _process_forms self done ids = Raise e' ∧ e' ≠ KeyError)
  ∧ (_process_single_note self id = Raise e →
     ∃ e', _process_notes self done ids = Raise e' ∧ e' ≠ KeyError).
Proof.
  intros Hin. split; intros He.
  - destruct (aggregate_raises self done _ ids id e Hin He) as [e' H].
    rewrite <- process_forms_aggregate in H. exists e'. split; [done |].
    by apply process_forms_Raise in H.
  - destruct (aggregate_raises self done _ ids id e Hin He) as [e' H].
    rewrite <- process_notes_aggregate in H. exists e'. split; [done |].
    by apply process_notes_Raise in H.
Qed.

Lemma raising_task_aborts_aggregate_witness :
  ∃ e', _process_forms
          {| session_get := serving [ (form_url "1", JDict [("name", JStr "Intake")]);
                                      (form_url "2", JList [JInt 1]) ];
             max_workers := 10 |}
          last_submitted_first ["1"; "2"] = Raise e'
        ∧ e' ≠ KeyError.
Proof.
  apply (proj1 (raising_task_aborts_aggregate
                  {| session_get := serving [ (form_url "1", JDict [("name", JStr "Intake")]);
                                              (form_url "2", JList [JInt 1]) ];
                     max_workers := 10 |}
                  last_submitted_first ["1"; "2"] "2" AttributeError
                  ltac:(right; left))).
  reflexivity.
Defined.

Lemma aggregate_skip self done process_one ids1 id ids2 r text :
  process_one id = Ok r →
  collected [r] = [] →
  aggregate self done process_one (ids1 ++ id :: ids2) = Ok text →
  ∃ others blocks,
    map process_one (ids1 ++ ids2) = map Ok others
    ∧ blocks ≡ₚ collected others
    ∧ text = join nl blocks.
Proof.
  intros Hr Hskip H.
  apply aggregate_blocks in H as (results & blocks & Hres & HP & ->).
  rewrite map_app in Hres. simpl in Hres. rewrite Hr in Hres.
  symmetry in Hres. apply map_eq_app in Hres as (r1 & r2 & -> & Hr1 & Hr2).
  destruct r2 as [|r' r2]; [discriminate |]. simpl in Hr2.
  injection Hr2 as -> Hr2.
  exists (r1 ++ r2), blocks. split; [by rewrite !map_app, Hr1, Hr2 |].
  split; [| done]. rewrite HP. unfold collected in *.
  rewrite !omap_app. change (r :: r2) with ([r] ++ r2). by rewrite omap_app, Hskip.
Qed.

(** X13. A form or a note whose fetch fails or brings a falsy body adds
    nothing and cancels nothing: whenever the aggregator returns, its text
    is joined from the results of the other ids alone, whatever the
    completion order. *)
Theorem failed_fetch_is_skipped self done ids1 id ids2 text :
  (truthy (_make_request self (form_url id)) = false →
   _process_forms self done (ids1 ++ id :: ids2) = Ok text →
   ∃ others blocks,
     map (_process_single_form self) (ids1 ++ ids2) = map Ok others
     ∧ blocks ≡ₚ collected others
     ∧ text = join nl blocks)
  ∧ (truthy (_make_request self (note_url id)) = false →
     _process_notes self done (ids1 ++ id :: ids2) = Ok text →
     ∃ others blocks,
       map (_process_single_note self) (ids1 ++ ids2) = map Ok others
       ∧ blocks ≡ₚ collected others
       ∧ text = join nl blocks).
Proof.
  split; intros Hf H.
  - rewrite process_forms_aggregate in H.
    apply (aggregate_skip _ _ _ _ _ _ (Some "")) in H; [done | | done].
    unfold _process_single_form. fold (form_url id). by rewrite Hf.
  - rewrite process_notes_aggregate in H.
    apply (aggregate_skip _ _ _ _ _ _ (Some "")) in H; [done | | done].
    unfold _process_single_note. fold (note_url id). by rewrite Hf.
Qed.

Lemma failed_fetch_is_skipped_witness :
  ∃ others blocks,
    map (_process_single_form sample_api) (["1"] ++ ["3"]) = map Ok others
    ∧ blocks ≡ₚ collected others
    ∧ nl +:+ "Form Name: Intake" +:+ nl +:+ nl +:+ nl +:+ " - age: 41" +:+ nl
      +:+ nl +:+ "Form Name: Survey" +:+ nl +:+ nl
      = join nl blocks.
Proof.
  apply (proj1 (failed_fetch_is_skipped sample_api in_submission_order ["1"] "404" ["3"] _));
    vm_compute; reflexivity.
Defined.

(** *** Notes *)

Lemma process_single_note_block self note_id d :
  session_get self (note_url note_id) = Some (JDict d) → d ≠ [] →
  _process_single_note self note_id = Ok (Some (note_block d)).
Proof.
  intros Hget Hd. unfold _process_single_note. fold (note_url note_id).
  rewrite (make_request_body _ _ _ Hget). by destruct d.
Qed.

Lemma note_block_not_empty d : collected [Some (note_block d)] = [note_block d].
Proof. reflexivity. Qed.

(** X14. Notes are never dropped: when every listed note has a body that is
    a non-empty object, [_process_notes] returns for every completion order,
    and its text is joined from exactly one block per note, the block
    [note_block] of its body (a line break, the title, a line break, the
    content, with "No title found" and "No content found" for what is
    missing), in some order. *)
Theorem every_note_contributes self done ids bodies :
  0 < max_workers self →
  ids ≠ [] →
  Forall2 (λ id d, session_get self (note_url id) = Some (JDict d) ∧ d ≠ []) ids bodies →
  ∃ blocks,
    _process_notes self done ids = Ok (join nl blocks)
    ∧ blocks ≡ₚ map note_block bodies.
Proof.
  intros Hmw Hne Hall.
  assert (Hres : map (_process_single_note self) ids
                 = map Ok (map (λ d, Some (note_block d)) bodies)).
  { clear Hne. induction Hall as [|id d ids bodies [Hget Hd] _ IH]; [done |].
    cbn [map]. rewrite (process_single_note_block _ _ _ Hget Hd). f_equal. exact IH. }
  unfold _process_notes.
  assert (Hpool : ThreadPoolExecutor (Z.min (Z.of_nat (length ids)) (max_workers self)) = Ok tt).
  { unfold ThreadPoolExecutor. rewrite (proj2 (Z.leb_gt _ _)); [done |].
    destruct ids; [done |]. simpl length. lia. }
  rewrite Hpool, Hres. cbn [mbind result_bind].
  pose proof (as_completed_perm done _ (map (_process_single_note self) ids)) as HP.
  rewrite Hres in HP. apply Permutation_map_inv in HP as (results & -> & HP).
  rewrite foldM_collect_Ok. cbn [mbind result_bind app].
  exists (collected results). split; [done |].
  rewrite <- (collected_perm _ _ HP). clear.
  induction bodies as [|d bodies IH]; [done |]. cbn [map]. unfold collected in *.
  cbn [omap list_omap]. by rewrite <- IH.
Qed.

Lemma every_note_contributes_witness :
  ∃ blocks,
    _process_notes sample_api last_submitted_first ["1"; "2"] = Ok (join nl blocks)
    ∧ blocks ≡ₚ map note_block [ [("title", JStr "Call"); ("details", JStr "Rang twice")];
                                 [("title", JStr "Visit")] ].
Proof.
  apply every_note_contributes.
  - reflexivity.
  - discriminate.
  - repeat constructor; discriminate.
Defined.

(** *** Malformed records *)

(** X15. The forms block is all or nothing: when one entry of the [forms]
    list is an object without a [form] key, while the entries before it are
    objects with a string link, the [KeyError] lands in the handler of the
    missing collection. The document gets "No forms found" and no form is
    aggregated, however many well-formed entries the list has. *)
Theorem malformed_entry_hides_the_collection self done d info good bad rest :
  Forall (λ item, ∃ link, py_getitem item "form" = Ok (JStr link)) good →
  dict_lookup "form" bad = None →
  dict_lookup "forms" d = Some (JList (good ++ JDict bad :: rest)) →
  process_forms_section self done (JDict d) info = Ok (info ++ [JStr "No forms found"]).
Proof.
  intros Hgood Hbad Hforms. unfold process_forms_section.
  cbn [py_getitem]. rewrite Hforms. cbn [mbind result_bind py_iter].
  assert (Hmap : mapM (λ form, link ← py_getitem form "form"; py_last_segment link)
                      (good ++ JDict bad :: rest) = Raise KeyError).
  { clear Hforms. induction Hgood as [|item good [link Hlink] _ IH].
    - cbn [app mapM py_getitem]. by rewrite Hbad.
    - cbn [app mapM]. rewrite Hlink. cbn [mbind result_bind py_last_segment].
      by rewrite IH. }
  rewrite Hmap. reflexivity.
Qed.

Lemma malformed_entry_hides_the_collection_witness :
  process_forms_section sample_api in_submission_order
    (JDict [ ("full_name", JStr "Di");
             ("forms", JList [ JDict [("form", JStr "/v1/forms/1")];
                               JDict [("id", JInt 3)] ]) ])
    []
  = Ok ([] ++ [JStr "No forms found"]).
Proof.
  apply (malformed_entry_hides_the_collection sample_api in_submission_order _ []
           [JDict [("form", JStr "/v1/forms/1")]] [("id", JInt 3)] []).
  - repeat constructor. by exists "/v1/forms/1".
  - reflexivity.
  - reflexivity.
Defined.

(** X16. The address block tells a missing address from a malformed one
    only in part. A first address that is an object without [city] or
    without [state] gives "No location found", like a missing or empty
    list; but an [addresses] value that is null, a number or a boolean
    raises [TypeError], which the block does not catch, and the contact
    ends with an exception and without a file. *)
Theorem address_block_edges self tm contact_id fs d :
  session_get self (contact_url contact_id) = Some (JDict d) →
  (∀ address others info,
     dict_lookup "addresses" d = Some (JList (JDict address :: others)) →
     dict_lookup "city" address = None ∨ dict_lookup "state" address = None →
     process_address (JDict d) info = Ok (info ++ [JStr "No location found"]))
  ∧ (∀ v, dict_lookup "addresses" d = Some v →
       v = JNull ∨ (∃ z, v = JInt z) ∨ (∃ b, v = JBool b) →
       (∀ info, process_address (JDict d) info = Raise TypeError)
       ∧ ∃ e, _process_contact self tm contact_id fs = (fs, Raise e)).
Proof.
  intros Hget. split.
  - intros address others info Haddr Hmissing. unfold process_address.
    cbn [py_getitem]. rewrite Haddr. cbn.
    destruct (dict_lookup "city" address) as [city|] eqn:Hc; [| done].
    destruct Hmissing as [|Hs]; [done |]. by rewrite Hs.
  - intros v Hv Hkind.
    assert (Hraise : ∀ info, process_address (JDict d) info = Raise TypeError).
    { intros info. unfold process_address. cbn [py_getitem]. rewrite Hv.
      destruct Hkind as [->|[[z ->]|[b ->]]]; reflexivity. }
    split; [done |].
    unfold _process_contact. fold (contact_url contact_id).
    rewrite (make_request_body _ _ _ Hget).
    assert (Ht : truthy (JDict d) = true) by (destruct d; [discriminate | done]).
    rewrite Ht. cbn [negb].
    assert (Hb : ∃ e, build_contact_info self tm contact_id (JDict d) = Raise e).
    { unfold build_contact_info. do 7 (apply bind_raises; intros ?).
      rewrite Hraise. simpl. eauto. }
    destruct Hb as [e ->]. eauto.
Qed.

Lemma address_block_edges_witness :
  (∀ info, process_address (JDict [("full_name", JStr "Ed"); ("addresses", JNull)]) info
           = Raise TypeError)
  ∧ ∃ e, _process_contact
           {| session_get := serving [(contact_url "6",
                                       JDict [("full_name", JStr "Ed"); ("addresses", JNull)])];
              max_workers := 10 |} steady "6" ∅
         = (∅, Raise e).
Proof.
  apply (proj2 (address_block_edges
                  {| session_get := serving [(contact_url "6",
                       JDict [("full_name", JStr "Ed"); ("addresses", JNull)])];
                     max_workers := 10 |} steady "6" ∅
                  [("full_name", JStr "Ed"); ("addresses", JNull)] eq_refl) JNull).
  - reflexivity.
  - by left.
Defined.

(** *** Links *)

Lemma has_char_contains c s : str_contains (String c "") s = has_char c s.
Proof.
  induction s as [|c' s IH]; [done |].
  cbn [str_contains has_char]. rewrite IH. f_equal.
  cbn [String.prefix]. destruct (ascii_dec c c') as [->|Hne].
  - rewrite Ascii.eqb_refl. by destruct s.
  - symmetry. apply Ascii.eqb_neq. congruence.
Qed.

Lemma split_on_no_char sep s : has_char sep s = false → split_on sep s = [s].
Proof. intros H. apply split_on_no_sep. by rewrite has_char_contains. Qed.

Lemma split_on_segments sep s :
  Forall (λ seg, has_char sep seg = false) (split_on sep s).
Proof.
  induction s as [|c s IH]; cbn [split_on]; [by repeat constructor |].
  destruct (Ascii.eqb c sep) eqn:E; [by constructor |].
  destruct (split_on sep s) as [|h t]; [by repeat constructor; cbn; rewrite E |].
  inversion IH as [|? ? Hh Ht]; subst. constructor; [| done]. cbn. by rewrite E, Hh.
Qed.

Lemma last_In {A} (l : list A) d : l ≠ [] → In (List.last l d) l.
Proof.
  induction l as [|x [|y l] IH]; [done | by left |]. intros _.
  right. by apply IH.
Qed.

Lemma try_except_escapes_KeyError {A} (e : exn) (handler : result A) :
  e ≠ KeyError → try_except (Raise e) [KeyError] handler = Raise e.
Proof.
  intros He. unfold try_except. rewrite bool_decide_eq_false_2; [done |].
  by intros ->%list_elem_of_singleton.
Qed.

Lemma last_segment_after_slash pre id :
  has_char slash id = false →
  py_last_segment (JStr (pre +:+ String slash id)) = Ok id.
Proof.
  intros Hid. cbn [py_last_segment]. rewrite split_on_app.
  rewrite (split_on_no_char _ _ Hid). by rewrite last_last.
Qed.

Lemma form_ids_of_links items ids :
  Forall2 (λ item id, ∃ pre, py_getitem item "form" = Ok (JStr (pre +:+ String slash id))
                             ∧ has_char slash id = false) items ids →
  mapM (λ form, link ← py_getitem form "form"; py_last_segment link) items = Ok ids.
Proof.
  induction 1 as [|item id items ids (pre & Hlink & Hid) _ IH]; [done |].
  cbn [mapM]. rewrite Hlink. cbn [mbind result_bind].
  rewrite (last_segment_after_slash _ _ Hid). cbn [mbind result_bind]. by rewrite IH.
Qed.

(** X17. The id taken from a link is its last segment: it never holds a
    slash, and for a link that ends in a slash followed by an id without a
    slash it is that id. So, for a contact whose [forms] list holds such
    links, the forms block aggregates over exactly these ids, in order; and
    what [_process_single_form] returns for an id depends on the remote only
    through the URL made of the base URL, [/v1/forms/] and that id. *)
Theorem last_segment_is_the_id :
  (∀ s seg, py_last_segment (JStr s) = Ok seg → has_char slash seg = false)
  ∧ (∀ pre id, has_char slash id = false →
       py_last_segment (JStr (pre +:+ String slash id)) = Ok id)
  ∧ (∀ self done d info items ids,
       dict_lookup "forms" d = Some (JList items) →
       Forall2 (λ item id,
                  ∃ pre, py_getitem item "form" = Ok (JStr (pre +:+ String slash id))
                         ∧ has_char slash id = false) items ids →
       process_forms_section self done (JDict d) info
       = (text ← _process_forms self done ids; Ok (info ++ [JStr text])))
  ∧ (∀ a b form_id,
       session_get a (base_url +:+ ("/v1/forms/" +:+ form_id))
       = session_get b (base_url +:+ ("/v1/forms/" +:+ form_id)) →
       _process_single_form a form_id = _process_single_form b form_id).
Proof.
  split; [| split; [| split]].
  - intros s seg [= <-].
    pose proof (split_on_segments slash s) as Hall.
    rewrite Forall_forall in Hall. apply Hall, list_elem_of_In, last_In.
    apply split_on_nonempty.
  - intros pre id. apply last_segment_after_slash.
  - intros self done d info items ids Hforms Hlinks. unfold process_forms_section.
    cbn [py_getitem]. rewrite Hforms. cbn [mbind result_bind py_iter].
    rewrite (form_ids_of_links _ _ Hlinks). cbn [mbind result_bind].
    destruct (_process_forms self done ids) as [text|e] eqn:Hrun; [reflexivity |].
    apply process_forms_Raise in Hrun. cbn [mbind result_bind].
    apply try_except_escapes_KeyError. exact Hrun.
  - intros a b form_id Hsame. unfold _process_single_form, _make_request.
    by rewrite Hsame.
Qed.

Lemma last_segment_is_the_id_witness :
  process_forms_section sample_api in_submission_order
    (JDict [("forms", JList [ JDict [("form", JStr "/v1/forms/1")];
                              JDict [("form", JStr "/v1/forms/3")] ])]) []
  = (text ← _process_forms sample_api in_submission_order ["1"; "3"]; Ok ([] ++ [JStr text])).
Proof.
  apply (proj1 (proj2 (proj2 last_segment_is_the_id)) sample_api in_submission_order
           [("forms", JList [ JDict [("form", JStr "/v1/forms/1")];
                              JDict [("form", JStr "/v1/forms/3")] ])] []
           [ JDict [("form", JStr "/v1/forms/1")]; JDict [("form", JStr "/v1/forms/3")] ]
           ["1"; "3"]).
  - reflexivity.
  - constructor; [exists "/v1/forms"; split; reflexivity |].
    constructor; [exists "/v1/forms"; split; reflexivity | constructor].
Defined.

(** *** Company, extra fields and form blocks *)

(** X18. The company block falls back to "No job information found" when
    the fetched company is an object without [name], although the role is
    known; a company body that is truthy but not an object (a list, a
    string, a number) raises [TypeError], which the block does not catch. *)
Theorem company_block_edges self d info company link others :
  dict_lookup "companies" d = Some (JList (JDict company :: others)) →
  dict_lookup "company" company = Some link →
  (∀ body, session_get self (base_url +:+ py_str link) = Some (JDict body) →
     body ≠ [] → dict_lookup "name" body = None →
     process_company self (JDict d) info = Ok (info ++ [JStr "No job information found"]))
  ∧ (∀ body, session_get self (base_url +:+ py_str link) = Some body →
       truthy body = true → (∀ b, body ≠ JDict b) →
       process_company self (JDict d) info = Raise TypeError).
Proof.
  intros Hcompanies Hlink. split.
  - intros body Hget Hne Hname. unfold process_company.
    cbn [py_getitem]. rewrite Hcompanies. cbn [mbind result_bind py_index lookup list_lookup].
    cbn [py_getitem]. rewrite Hlink. cbn [mbind result_bind].
    rewrite (make_request_body _ _ _ Hget).
    assert (Ht : truthy (JDict body) = true) by (destruct body; [done | done]).
    rewrite Ht. cbn [py_getitem]. by rewrite Hname.
  - intros body Hget Ht Hobj. unfold process_company.
    cbn [py_getitem]. rewrite Hcompanies. cbn [mbind result_bind py_index lookup list_lookup].
    cbn [py_getitem]. rewrite Hlink. cbn [mbind result_bind].
    rewrite (make_request_body _ _ _ Hget), Ht.
    destruct body; try reflexivity. by destruct (Hobj d0).
Qed.

Lemma company_block_edges_witness :
  process_company
    {| session_get := serving [(base_url +:+ "/v1/companies/3", JDict [("id", JInt 3)])];
       max_workers := 10 |}
    (JDict [("companies", JList [JDict [("company", JStr "/v1/companies/3");
                                        ("role", JStr "Owner")]])])
    []
  = Ok ([] ++ [JStr "No job information found"]).
Proof.
  apply (proj1 (company_block_edges
                  {| session_get := serving [(base_url +:+ "/v1/companies/3",
                                              JDict [("id", JInt 3)])];
                     max_workers := 10 |}
                  [("companies", JList [JDict [("company", JStr "/v1/companies/3");
                                               ("role", JStr "Owner")]])]
                  [] [("company", JStr "/v1/companies/3"); ("role", JStr "Owner")]
                  (JStr "/v1/companies/3") [] eq_refl eq_refl)
           [("id", JInt 3)]).
  - reflexivity.
  - discriminate.
  - reflexivity.
Defined.

Lemma foldM_extra_field_concat items : ∀ liness info,
  Forall2 (λ item lines, extra_field_line [] item = Ok lines) items liness →
  foldM extra_field_line info items = Ok (info ++ concat liness).
Proof.
  induction items as [|item items IH]; intros liness info H;
    inversion H as [|? lines ? rest Hitem Hrest]; subst.
  - cbn. by rewrite app_nil_r.
  - cbn [foldM concat].
    destruct (extra_field_line_appends _ _ _ Hitem) as (ls & Hls & Hall).
    rewrite (Hall info). cbn [mbind result_bind].
    rewrite (IH _ _ Hrest). simpl in Hls. rewrite Hls. by rewrite <- app_assoc.
Qed.

(** X19. The extra-fields block keeps the order of the object it reads:
    below the header it appends what each field contributes on its own, one
    after the other. With a non-empty object whose fields all lack a value,
    the header is appended alone; with an absent or empty object nothing is
    appended, not even the header. *)
Theorem extra_fields_in_order d info :
  (∀ items liness,
     dict_lookup "extra_fields" d = Some (JDict items) → items ≠ [] →
     Forall2 (λ item lines, extra_field_line [] item = Ok lines) items liness →
     process_extra_fields (JDict d) info
     = Ok (info ++ JStr (nl +:+ "Extra Fields:") :: concat liness))
  ∧ (dict_lookup "extra_fields" d = None ∨ dict_lookup "extra_fields" d = Some (JDict []) →
     process_extra_fields (JDict d) info = Ok info).
Proof.
  split.
  - intros items liness Hd Hne Hall. unfold process_extra_fields.
    cbn [py_get]. rewrite Hd. cbn [from_option id mbind result_bind].
    assert (Ht : truthy (JDict items) = true) by (destruct items; [done | done]).
    rewrite Ht. cbn [py_items mbind result_bind].
    rewrite (foldM_extra_field_concat _ _ _ Hall). by rewrite <- app_assoc.
  - unfold process_extra_fields. cbn [py_get]. by intros [-> | ->].
Qed.

Lemma extra_fields_in_order_witness :
  process_extra_fields
    (JDict [("extra_fields",
             JDict [ ("com.marketcircle.daylite/extra4", JDict [("value", JStr "Gold")]);
                     ("empty", JDict [("value", JStr "")]);
                     ("custom9", JDict [("value", JInt 2)]) ])])
    []
  = Ok ([] ++ JStr (nl +:+ "Extra Fields:")
           :: concat [ [JStr " - Client Level: Gold"]; []; [JStr " - custom9: 2"] ]).
Proof.
  apply (proj1 (extra_fields_in_order _ [])
           [ ("com.marketcircle.daylite/extra4", JDict [("value", JStr "Gold")]);
             ("empty", JDict [("value", JStr "")]);
             ("custom9", JDict [("value", JInt 2)]) ]).
  - reflexivity.
  - discriminate.
  - repeat constructor.
Defined.

Lemma foldM_form_value_line_appends values : ∀ result result',
  foldM form_value_line result values = Ok result' →
  ∃ lines, result' = result ++ lines.
Proof.
  induction values as [|v values IH]; intros result result'; cbn [foldM].
  - intros [= <-]. exists []. by rewrite app_nil_r.
  - intros H. apply bind_Ok_inv in H as (mid & Hmid & H).
    apply IH in H as (lines & ->).
    unfold form_value_line in Hmid.
    apply bind_Ok_inv in Hmid as (name & _ & Hmid).
    apply bind_Ok_inv in Hmid as (value_str & _ & [= <-]).
    destruct value_str; try destruct (negb _); rewrite <- ?app_assoc; eauto.
Qed.

(** X20. Whenever [_process_single_form] returns a text for a form whose
    fetch brought a body, the text opens with a line break, the line
    [Form Name: <name>] and two line breaks: the value lines only follow the
    header, and a form without any value line still contributes its
    header. *)
Theorem form_block_opens_with_header self form_id d text :
  session_get self (form_url form_id) = Some (JDict d) → d ≠ [] →
  _process_single_form self form_id = Ok (Some text) →
  let form_name := from_option id (JStr "Unknown Form Name") (dict_lookup "name" d) in
  ∃ rest, text = nl +:+ "Form Name: " +:+ py_str form_name +:+ nl +:+ nl +:+ rest.
Proof.
  intros Hget Hd Hrun form_name.
  rewrite (process_single_form_unfold _ _ _ Hget Hd) in Hrun. cbv zeta in Hrun.
  fold form_name in Hrun.
  destruct (negb (str_contains "Geo Coordinates" (py_str form_name))); [| discriminate].
  apply bind_Ok_inv in Hrun as (vs & _ & Hrun).
  apply bind_Ok_inv in Hrun as (result & Hfold & [= <-]).
  apply foldM_form_value_line_appends in Hfold as (lines & ->).
  unfold form_header. cbn [app]. unfold join.
  destruct lines as [|l lines].
  - exists "". reflexivity.
  - exists (nl +:+ String.concat nl (l :: lines)).
    reflexivity.
Qed.

Lemma form_block_opens_with_header_witness :
  ∃ rest, nl +:+ "Form Name: Survey" +:+ nl +:+ nl
          = nl +:+ "Form Name: " +:+ py_str (JStr "Survey") +:+ nl +:+ nl +:+ rest.
Proof.
  apply (form_block_opens_with_header sample_api "3"
           [("name", JStr "Survey"); ("values", JList [])]).
  - reflexivity.
  - discriminate.
  - vm_compute. reflexivity.
Defined.

(** *** What a contact can raise *)

Lemma bind_Raise_inv {A B} (m : result A) (f : A → result B) e :
  (m ≫= f) = Raise e → m = Raise e ∨ ∃ a, m = Ok a ∧ f a = Raise e.
Proof. destruct m as [a|e']; simpl; [eauto | intros [= ->]; by left]. Qed.

Lemma attribute_error_ok : not_lookup_error AttributeError.
Proof. by split. Qed.

Lemma type_error_ok : not_lookup_error TypeError.
Proof. by split. Qed.

Lemma value_error_ok : not_lookup_error ValueError.
Proof. by split. Qed.

Lemma py_get_nle obj key default e : py_get obj key default = Raise e → not_lookup_error e.
Proof. intros ->%py_get_Raise. apply attribute_error_ok. Qed.

Lemma py_iter_nle obj e : py_iter obj = Raise e → not_lookup_error e.
Proof. intros ->%py_iter_Raise. apply type_error_ok. Qed.

Lemma py_join_nle sep l e : py_join sep l = Raise e → not_lookup_error e.
Proof. intros ->%py_join_Raise. apply type_error_ok. Qed.

Lemma py_items_nle obj e : py_items obj = Raise e → not_lookup_error e.
Proof. destruct obj; simpl; try discriminate; intros [= <-]; apply attribute_error_ok. Qed.

Lemma py_translate_nle obj drop e : py_translate obj drop = Raise e → not_lookup_error e.
Proof. destruct obj; simpl; try discriminate; intros [= <-]; apply attribute_error_ok. Qed.

Lemma py_last_segment_nle obj e : py_last_segment obj = Raise e → not_lookup_error e.
Proof. destruct obj; simpl; try discriminate; intros [= <-]; apply attribute_error_ok. Qed.

Lemma py_getitem_not_index obj key e : py_getitem obj key = Raise e → e ≠ IndexError.
Proof.
  destruct obj; simpl; try (intros [= <-]; discriminate).
  destruct (dict_lookup key d); [discriminate | intros [= <-]; discriminate].
Qed.

(** Both lookup errors are caught around the address and the company. *)
Lemma try_except_lookup_nle {A} (body : result A) (fallback : A) e :
  try_except body [KeyError; IndexError] (Ok fallback) = Raise e → not_lookup_error e.
Proof.
  unfold try_except. destruct body as [a|e']; [discriminate |].
  case_bool_decide as Hin; [discriminate |]. intros [= <-].
  split; intros ->; apply Hin; [by left | right; by left].
Qed.

Lemma contact_name_nle contact_id data e :
  contact_name contact_id data = Raise e → not_lookup_error e.
Proof.
  unfold contact_name. intros [H|(name & _ & H)]%bind_Raise_inv.
  - by apply py_get_nle in H.
  - by apply py_translate_nle in H.
Qed.

Lemma extra_field_line_nle info item e :
  extra_field_line info item = Raise e → not_lookup_error e.
Proof.
  destruct item as [key field]. unfold extra_field_line.
  intros [H|(value & Hvalue & H)]%bind_Raise_inv; [by apply py_get_nle in H |].
  destruct (truthy value) eqn:Ht; [| discriminate].
  apply bind_Raise_inv in H as [H|(name & _ & H)].
  - unfold display_name_of in H.
    destruct (names_get key extra_field_names) as [custom|];
      [destruct (truthy (JStr custom)); [discriminate |] |]; by apply py_get_nle in H.
  - apply bind_Raise_inv in H as [H|(v & _ & H)]; [| discriminate].
    exfalso. destruct field; try discriminate. simpl in Hvalue, H.
    destruct (dict_lookup "value" d); [discriminate |].
    injection Hvalue as <-. discriminate.
Qed.

Lemma foldM_nle {A B} (f : B → A → result B) l : ∀ acc e,
  (∀ acc x e, f acc x = Raise e → not_lookup_error e) →
  foldM f acc l = Raise e → not_lookup_error e.
Proof.
  induction l as [|x l IH]; intros acc e Hf; cbn [foldM]; [discriminate |].
  intros [H|(acc' & _ & H)]%bind_Raise_inv; [by apply Hf in H | by apply IH in H].
Qed.

Lemma process_extra_fields_nle data info e :
  process_extra_fields data info = Raise e → not_lookup_error e.
Proof.
  unfold process_extra_fields.
  intros [H|(extra & _ & H)]%bind_Raise_inv; [by apply py_get_nle in H |].
  destruct (truthy extra); [| discriminate].
  apply bind_Raise_inv in H as [H|(items & _ & H)]; [by apply py_items_nle in H |].
  revert H. apply foldM_nle. intros acc x e'. apply extra_field_line_nle.
Qed.

Lemma mapM_Raise_inv {A B} (f : A → result B) l e :
  mapM f l = Raise e → ∃ x, f x = Raise e.
Proof.
  induction l as [|x l IH]; cbn [mapM]; [discriminate |].
  intros [H|(y & _ & H)]%bind_Raise_inv; [eauto |].
  apply bind_Raise_inv in H as [H|(ys & _ & H)]; [by apply IH | discriminate].
Qed.

Lemma process_section_nle key field fallback many data info e :
  (∀ ids e, many ids = Raise e → not_lookup_error e) →
  process_section key field fallback many data info = Raise e → not_lookup_error e.
Proof.
  intros Hmany. unfold process_section, try_except.
  destruct (_ ≫= _) as [a|e'] eqn:Hbody; [discriminate |].
  case_bool_decide as Hin; [discriminate |]. intros [= <-].
  split; [intros ->; apply Hin; by left |].
  apply bind_Raise_inv in Hbody as [H|(items & _ & Hbody)];
    [by apply py_getitem_not_index in H |].
  apply bind_Raise_inv in Hbody as [H|(l & _ & Hbody)];
    [by apply py_iter_nle in H as [_ H] |].
  apply bind_Raise_inv in Hbody as [H|(ids & _ & Hbody)].
  - apply mapM_Raise_inv in H as (item & H).
    apply bind_Raise_inv in H as [H|(link & _ & H)];
      [by apply py_getitem_not_index in H | by apply py_last_segment_nle in H as [_ H]].
  - apply bind_Raise_inv in Hbody as [H|(text & _ & H)]; [| discriminate].
    by apply Hmany in H as [_ H].
Qed.

Lemma aggregate_nle self done process_one ids e :
  (∀ id e, process_one id = Raise e → not_lookup_error e) →
  aggregate self done process_one ids = Raise e → not_lookup_error e.
Proof.
  intros Hone H. apply aggregate_Raise in H as [->|[id H]];
    [apply value_error_ok | by apply Hone in H].
Qed.

Lemma process_single_form_nle self form_id e :
  _process_single_form self form_id = Raise e → not_lookup_error e.
Proof.
  unfold _process_single_form. destruct (negb _); [discriminate |].
  intros [H|(name & _ & H)]%bind_Raise_inv; [by apply py_get_nle in H |].
  apply bind_Raise_inv in H as [H|(values & _ & H)]; [by apply py_get_nle in H |].
  destruct (negb _); [| discriminate].
  apply bind_Raise_inv in H as [H|(vs & _ & H)]; [by apply py_iter_nle in H |].
  apply bind_Raise_inv in H as [H|(r & _ & H)]; [| discriminate].
  apply foldM_form_value_line_Raise in H as ->. apply attribute_error_ok.
Qed.

Lemma process_single_note_nle self note_id e :
  _process_single_note self note_id = Raise e → not_lookup_error e.
Proof.
  unfold _process_single_note. destruct (negb _); [discriminate |].
  intros [H|(title & _ & H)]%bind_Raise_inv; [by apply py_get_nle in H |].
  apply bind_Raise_inv in H as [H|(content & _ & H)]; [by apply py_get_nle in H |].
  discriminate.
Qed.

Lemma build_contact_info_nle self tm contact_id data e :
  build_contact_info self tm contact_id data = Raise e → not_lookup_error e.
Proof.
  unfold build_contact_info.
  intros [H|(name & _ & H)]%bind_Raise_inv; [by apply contact_name_nle in H |].
  apply bind_Raise_inv in H as [H|(details & _ & H)]; [by apply py_get_nle in H |].
  apply bind_Raise_inv in H as [H|(k & _ & H)]; [by apply py_get_nle in H |].
  apply bind_Raise_inv in H as [H|(ks & _ & H)]; [by apply py_iter_nle in H |].
  apply bind_Raise_inv in H as [H|(kws & _ & H)]; [by apply py_join_nle in H |].
  apply bind_Raise_inv in H as [H|(b & _ & H)]; [by apply py_get_nle in H |].
  apply bind_Raise_inv in H as [H|(a & _ & H)]; [by apply py_get_nle in H |].
  apply bind_Raise_inv in H as [H|(i1 & _ & H)]; [by apply try_except_lookup_nle in H |].
  apply bind_Raise_inv in H as [H|(i2 & _ & H)]; [by apply try_except_lookup_nle in H |].
  apply bind_Raise_inv in H as [H|(i3 & _ & H)]; [by apply process_extra_fields_nle in H |].
  apply bind_Raise_inv in H as [H|(i4 & _ & H)].
  { rewrite process_forms_section_shape in H. revert H. apply process_section_nle.
    intros ids e'. rewrite process_forms_aggregate. apply aggregate_nle.
    intros id e''. apply process_single_form_nle. }
  apply bind_Raise_inv in H as [H|(i5 & _ & H)]; [| discriminate].
  rewrite process_notes_section_shape in H. revert H. apply process_section_nle.
  intros ids e'. rewrite process_notes_aggregate. apply aggregate_nle.
  intros id e''. apply process_single_note_nle.
Qed.

Lemma process_contact_nle self tm contact_id fs fs' e :
  _process_contact self tm contact_id fs = (fs', Raise e) → not_lookup_error e.
Proof.
  unfold _process_contact. destruct (negb _); [discriminate |].
  destruct (build_contact_info _ _ _ _) as [[filename info]|e'] eqn:Hbuild.
  - destruct (py_join nl _) as [text|e'] eqn:Hjoin; [discriminate |].
    intros [= _ <-]. by apply py_join_nle in Hjoin.
  - intros [= _ <-]. by apply build_contact_info_nle in Hbuild.
Qed.

(** X21. A missing key or an empty list never surfaces as an error of a
    contact: whatever the remote serves, the exception that
    [_process_contact] ends with is never a [KeyError] nor an [IndexError],
    and so none of the exceptions of a batch, which the orchestrator logs,
    is one. *)
Theorem lookup_errors_never_escape self :
  (∀ tm contact_id fs fs' e,
     _process_contact self tm contact_id fs = (fs', Raise e) →
     e ≠ KeyError ∧ e ≠ IndexError)
  ∧ (∀ plan ids,
       Forall (λ e, e ≠ KeyError ∧ e ≠ IndexError) (failures self plan ids)).
Proof.
  split; [intros tm contact_id fs fs' e; apply process_contact_nle |].
  intros plan ids. unfold failures. induction ids as [|id ids IH]; [constructor |].
  cbn [omap list_omap].
  destruct (_process_contact self (timing_of plan id) id ∅) as [fs' [u|e]] eqn:Hrun;
    cbn [snd failure_of]; [exact IH |].
  constructor; [| exact IH]. by apply process_contact_nle in Hrun.
Qed.

Lemma lookup_errors_never_escape_witness : ValueError ≠ KeyError ∧ ValueError ≠ IndexError.
Proof.
  apply (proj1 (lookup_errors_never_escape sample_api) steady "9" ∅ ∅ ValueError).
  vm_compute. reflexivity.
Defined.
